(** * A shallow embedding of [scanner.py] (200DMA mega-cap strategy backtest)

    The development follows the Python module function by function:
    [download_close_prices], [build_signals], [max_drawdown],
    [run_backtest], [latest_signal_table], [apply_market_filter] and
    [main] up to its printing.  The network download itself is outside the
    model: the frame [yf.download] returns is an input.

    Modelling conventions.
    - A pandas [DataFrame] is a list of column labels and a list of rows, one
      row per index entry; a row carries its date and one cell per column.
      Label based access ([.loc], [.at], [prices[t]]) is modelled for unique
      labels.
    - Trading dates are day numbers (days since 1970-01-01); the calendar
      month of a date and the [DateOffset(years=n)] subtraction go through
      the proleptic Gregorian calendar.
    - Finite floating point values are idealised as rationals [Q]: rounding
      and overflow are not modelled, and a division by a price stands for
      the float division at a non zero price.  A missing price ([NaN]) is
      [None].  Where the code can produce a non finite value out of finite
      ones (the division [equity / running maximum] of [max_drawdown]) the
      value is an [xfloat].
    - The dictionary [shares] is a [gmap]; its keys are the columns of the
      price table and the code only reads it at tickers of that table.
    - Exceptions are values of [result].  Two exceptions of [run_backtest]
      are outside the model: the one of [end_date - pd.DateOffset(years)]
      when the start of the window leaves the [Timestamp] range, and the
      [TypeError] of [float(cagr)] when the final value is negative under a
      positive invested amount (the power is then complex).  Where a
      theorem states that [run_backtest] or [main] raises the
      insufficient-history error, or returns, it assumes a window start
      inside that range and, for a returned result, positive prices, under
      which the final value is not negative. *)

From Stdlib Require Import ZArith QArith Qminmax Lia Lqa List Bool.
From Stdlib Require OrdersEx.
From stdpp Require Import gmap strings sorting.
Import ListNotations.

(** ** Errors *)

Inductive error : Type :=
| ValueError (msg : string)
| KeyError
| IndexError
| ZeroDivisionError.

Inductive result (A : Type) : Type :=
| Ok (a : A)
| Err (e : error).
Arguments Ok {A} a.
Arguments Err {A} e.

Definition rbind {A B : Type} (m : result A) (k : A -> result B) : result B :=
  match m with
  | Ok a => k a
  | Err e => Err e
  end.

Notation "'let*' x ':=' m 'in' k" := (rbind m (fun x => k))
  (at level 10, x name, m at level 100, k at level 200).

(** ** Calendar *)

Module Calendar.

Local Open Scope Z_scope.

(** Days since 1970-01-01. *)
Definition date : Type := Z.

(** Year, month and day of month of a day number. *)
Definition civil_from_days (z : date) : Z * Z * Z :=
  let z := z + 719468 in
  let era := z / 146097 in
  let doe := z - era * 146097 in
  let yoe := (doe - doe / 1460 + doe / 36524 - doe / 146096) / 365 in
  let y := yoe + era * 400 in
  let doy := doe - (365 * yoe + yoe / 4 - yoe / 100) in
  let mp := (5 * doy + 2) / 153 in
  let d := doy - (153 * mp + 2) / 5 + 1 in
  let m := if mp <? 10 then mp + 3 else mp - 9 in
  (if m <=? 2 then y + 1 else y, m, d).

Definition days_from_civil (y m d : Z) : date :=
  let y := if m <=? 2 then y - 1 else y in
  let era := y / 400 in
  let yoe := y - era * 400 in
  let doy := (153 * (if 2 <? m then m - 3 else m + 9) + 2) / 5 + d - 1 in
  let doe := yoe * 365 + yoe / 4 - yoe / 100 + doy in
  era * 146097 + doe - 719468.

Definition is_leap (y : Z) : bool :=
  ((y mod 4 =? 0) && negb (y mod 100 =? 0)) || (y mod 400 =? 0).

Definition days_in_month (y m : Z) : Z :=
  if m =? 2 then (if is_leap y then 29 else 28)
  else if (m =? 4) || (m =? 6) || (m =? 9) || (m =? 11) then 30
  else 31.

(** [index.to_period("M")]: the calendar month, as months since year 0. *)
Definition to_period_M (d : date) : Z :=
  let '(y, m, _) := civil_from_days d in y * 12 + (m - 1).

(** [d - pd.DateOffset(years=n)]: same month and day [n] years earlier, the
    day clipped to the length of the month. *)
Definition sub_years (d : date) (n : Z) : date :=
  let '(y, m, dd) := civil_from_days d in
  days_from_civil (y - n) m (Z.min dd (days_in_month (y - n) m)).

(** The dates a [Timestamp] of nanosecond resolution holds at midnight:
    1677-09-22 to 2262-04-11.  [sub_years] is defined on every day number;
    in pandas the subtraction raises when its result leaves this range. *)
Definition in_timestamp_range (d : date) : Prop := -106751 <= d <= 106751.

End Calendar.
Export Calendar.

(** ** Numbers *)

Local Open Scope Q_scope.

(** [x < y], as a test. *)
Definition Qltb (x y : Q) : bool := negb (Qle_bool y x).

(** Non finite outcomes of a float division, next to the finite ones. *)
Inductive xfloat : Type :=
| Finite (q : Q)
| PosInf
| NegInf
| NaN.

(** [a / b] on floats with finite operands. *)
Definition xdiv (a b : Q) : xfloat :=
  if Qeq_bool b 0 then
    if Qeq_bool a 0 then NaN
    else if Qltb 0 a then PosInf else NegInf
  else Finite (a / b).

Definition xsub (x : xfloat) (c : Q) : xfloat :=
  match x with
  | Finite q => Finite (q - c)
  | other => other
  end.

(** [x <= y] on floats: false as soon as one side is [NaN]. *)
Definition xleb (x y : xfloat) : bool :=
  match x, y with
  | NaN, _ | _, NaN => false
  | NegInf, _ => true
  | _, PosInf => true
  | Finite a, Finite b => Qle_bool a b
  | _, _ => false
  end.

(** Minimum of two non-[NaN] values; a [NaN] operand is skipped. *)
Definition xmin2 (x y : xfloat) : xfloat :=
  match x, y with
  | NaN, _ => y
  | _, NaN => x
  | _, _ => if xleb x y then x else y
  end.

(** [Series.min()]: [NaN] entries are skipped; [NaN] when nothing is left. *)
Definition series_min (l : list xfloat) : xfloat := fold_left xmin2 l NaN.

(** Python's [a / b] on floats raises on a zero divisor. *)
Definition py_div (a b : Q) : result Q :=
  if Qeq_bool b 0 then Err ZeroDivisionError else Ok (a / b).

(** Python's [sum]: starts from 0 and adds from the left. *)
Definition py_sum (l : list Q) : Q := fold_left Qplus l 0.

(** ** Data frames *)

Record DataFrame (A : Type) : Type := mkFrame {
  columns : list string;
  rows : list (date * list A)
}.
Arguments mkFrame {A} columns rows.
Arguments columns {A} d.
Arguments rows {A} d.

Definition index {A : Type} (df : DataFrame A) : list date := map fst (rows df).

(** [df.empty]: one of the two axes has length 0. *)
Definition empty {A : Type} (df : DataFrame A) : bool :=
  match rows df, columns df with
  | [], _ | _, [] => true
  | _, _ => false
  end.

(** A row seen as a [Series] indexed by the column labels. *)
Definition row_series {A : Type} (cols : list string) (cells : list A) : list (string * A) :=
  combine cols cells.

(** [s[t]] on such a series. *)
Fixpoint series_get {A : Type} (s : list (string * A)) (t : string) : result A :=
  match s with
  | [] => Err KeyError
  | (t', v) :: r => if String.eqb t' t then Ok v else series_get r t
  end.

(** [s.dropna()]: the labels with a price, each with its price, which is
    what [prices[t]] returns for a label [t] of [prices.dropna().index]. *)
Fixpoint dropna (s : list (string * option Q)) : list (string * Q) :=
  match s with
  | [] => []
  | (t, Some p) :: r => (t, p) :: dropna r
  | (_, None) :: r => dropna r
  end.

(** [df.iloc[:, j]] as a list of cells, top to bottom. *)
Definition column {A : Type} (df : DataFrame A) (j : nat) (d : A) : list A :=
  map (fun r => nth j (snd r) d) (rows df).

(** ** [build_signals] *)

(** The window of [rolling(w)] at row [i]: the last [w] entries of rows
    [0..i], fewer when [i + 1 < w]. *)
Definition window {A : Type} (w : nat) (s : list A) (i : nat) : list A :=
  skipn (S i - w) (firstn (S i) s).

Fixpoint all_present (l : list (option Q)) : option (list Q) :=
  match l with
  | [] => Some []
  | Some x :: r => match all_present r with Some xs => Some (x :: xs) | None => None end
  | None :: _ => None
  end.

(** [.mean()] of one window: [NaN] unless the window holds [w] observations
    ([min_periods] defaults to the window size). *)
Definition window_mean (w : nat) (win : list (option Q)) : option Q :=
  if (length win =? w)%nat then
    match all_present win with
    | Some xs => Some (py_sum xs / inject_Z (Z.of_nat w))
    | None => None
    end
  else None.

Definition rolling_mean (w : nat) (s : list (option Q)) : list (option Q) :=
  map (fun i => window_mean w (window w s i)) (seq 0 (length s)).

(** [s.shift(k)]: rows move down by [k], [NaN] fills the top. *)
Definition shift (k : nat) (s : list (option Q)) : list (option Q) :=
  take (length s) (replicate k None ++ s).

(** [a > b] on cells: false when either side is [NaN]. *)
Definition cell_gt (a b : option Q) : bool :=
  match a, b with
  | Some x, Some y => Qltb y x
  | _, _ => false
  end.

(** [build_signals] on one column. *)
Definition signal_series (close : list (option Q)) : list bool :=
  let dma_200 := rolling_mean 200 close in
  let above_200 := zip_with cell_gt close dma_200 in
  let dma_rising := zip_with cell_gt dma_200 (shift 20 dma_200) in
  zip_with andb above_200 dma_rising.

Definition build_signals (close : DataFrame (option Q)) : DataFrame bool :=
  let sigcols :=
    map (fun j => signal_series (column close j None)) (seq 0 (length (columns close))) in
  mkFrame (columns close)
    (imap (fun i r => (fst r, map (fun c => nth i c false) sigcols)) (rows close)).

(** The moving average in the words of the specification: the arithmetic
    mean of the close prices of the [n] trading days that end with day [i];
    undefined while fewer than [n] days are there, or when one of these
    prices is missing. *)
Definition spec_sma (n : nat) (close : list (option Q)) (i : nat) : option Q :=
  if (n <=? S i)%nat then
    match all_present (map (fun k => nth k close None) (seq (S i - n) n)) with
    | Some xs => Some (py_sum xs / inject_Z (Z.of_nat n))
    | None => None
    end
  else None.

(** ** [max_drawdown] *)

Fixpoint cummax_from (m : Q) (l : list Q) : list Q :=
  match l with
  | [] => []
  | x :: r => let m' := Qmax m x in m' :: cummax_from m' r
  end.

(** [Series.cummax()] *)
Definition cummax (l : list Q) : list Q :=
  match l with
  | [] => []
  | x :: r => x :: cummax_from x r
  end.

Definition max_drawdown (equity_curve : list (date * Q)) : xfloat :=
  let vals := map snd equity_curve in
  let roll_max := cummax vals in
  let dd := zip_with (fun e m => xsub (xdiv e m) 1) vals roll_max in
  match dd with
  | [] => Finite 0
  | _ => series_min dd
  end.

(** ** [run_backtest] *)

Module BacktestResult.
(** The value [base ** exponent - 1] is irrational in general: the record
    keeps the two operands of the power. *)
Inductive cagr_value : Type :=
| Zero
| PowMinus1 (base exponent : Q).

Record t : Type := mk {
  cagr : cagr_value;
  invested : Q;
  final_value : Q;
  max_drawdown : xfloat;
  monthly_contribution_count : nat
}.
End BacktestResult.

#[local] Instance Q_inhabited : Inhabited Q := populate 0.

Record portfolio : Type := mkPortfolio {
  cash : Q;
  shares : gmap string Q
}.

(** [index.max()], on a non empty index. *)
Definition index_max (l : list date) : date :=
  match l with
  | [] => 0%Z
  | d :: r => fold_left Z.max r d
  end.

(** [close.loc[close.index >= start_date]] with
    [start_date = close.index.max() - DateOffset(years)], for a start date
    that is [in_timestamp_range]. *)
Definition backtest_window (close : DataFrame (option Q)) (years : Z) : DataFrame (option Q) :=
  let end_date := index_max (index close) in
  let start_date := sub_years end_date years in
  mkFrame (columns close) (List.filter (fun r => (start_date <=? fst r)%Z) (rows close)).

(** [signals.loc[labels]]: the rows with these labels, in this order;
    [KeyError] on a label that is not in the index. *)
Fixpoint loc_rows {A : Type} (rs : list (date * list A)) (labels : list date)
  : result (list (date * list A)) :=
  match labels with
  | [] => Ok []
  | d :: ls =>
      match List.find (fun r => (fst r =? d)%Z) rs with
      | None => Err KeyError
      | Some r => let* out := loc_rows rs ls in Ok (r :: out)
      end
  end.

Definition loc {A : Type} (df : DataFrame A) (labels : list date) : result (DataFrame A) :=
  let* rs := loc_rows (rows df) labels in Ok (mkFrame (columns df) rs).

(** One more date [d], of month [k], in the groups: the groups are kept by
    increasing month, each with the smallest of its dates. *)
Fixpoint group_min (k : Z) (d : date) (groups : list (Z * date)) : list (Z * date) :=
  match groups with
  | [] => [(k, d)]
  | (k', d') :: r =>
      if (k <? k')%Z then (k, d) :: groups
      else if (k =? k')%Z then (k', Z.min d' d) :: r
      else (k', d') :: group_min k d r
  end.

(** [index.to_series().groupby(index.to_period("M")).min()] *)
Definition groupby_month_min (idx : list date) : list (Z * date) :=
  fold_left (fun groups d => group_min (to_period_M d) d groups) idx [].

(** [contribution_days]: the [.values] of that series. *)
Definition contribution_days (idx : list date) : list date :=
  map snd (groupby_month_min idx).

(** [day in contribution_days] *)
Definition is_contribution_day (day : date) (cdays : list date) : bool :=
  existsb (Z.eqb day) cdays.

(** The exit loop of one day:
    [for t in tradable:
       if shares[t] > 0 and not bool(sig.at[day, t]):
         cash += shares[t] * prices[t]; shares[t] = 0.0].
    [sigrow] is the row of [sig] for that day; the signal is only read for
    a position that is held. *)
Fixpoint exit_positions (sigrow : list (string * bool)) (tradable : list (string * Q))
    (st : portfolio) : result portfolio :=
  match tradable with
  | [] => Ok st
  | (t, price) :: rest =>
      if Qltb 0 (shares st !!! t) then
        let* s := series_get sigrow t in
        if negb s then
          exit_positions sigrow rest
            (mkPortfolio (cash st + (shares st !!! t) * price) (<[t := 0]> (shares st)))
        else exit_positions sigrow rest st
      else exit_positions sigrow rest st
  end.

(** [[t for t in tradable if bool(sig.at[day, t])]] *)
Fixpoint active_of (sigrow : list (string * bool)) (tradable : list (string * Q))
  : result (list (string * Q)) :=
  match tradable with
  | [] => Ok []
  | (t, price) :: rest =>
      let* s := series_get sigrow t in
      let* act := active_of sigrow rest in
      Ok (if s then (t, price) :: act else act)
  end.

(** [for t in active: shares[t] += per_name / prices[t]] *)
Definition buy (per_name : Q) (active : list (string * Q)) (sh : gmap string Q) : gmap string Q :=
  fold_left (fun sh tp => <[fst tp := sh !!! fst tp + per_name / snd tp]> sh) active sh.

(** The body of [if day in contribution_days]: the contribution is added,
    and under [if active and cash > 0] the cash is split among the active
    tickers and reset. *)
Definition contribute (monthly_contribution : Q) (sigrow : list (string * bool))
    (tradable : list (string * Q)) (st : portfolio) : result portfolio :=
  let cash1 := cash st + monthly_contribution in
  let* active := active_of sigrow tradable in
  match active with
  | _ :: _ =>
      if Qltb 0 cash1 then
        let per_name := cash1 / inject_Z (Z.of_nat (length active)) in
        Ok (mkPortfolio 0 (buy per_name active (shares st)))
      else Ok (mkPortfolio cash1 (shares st))
  | [] => Ok (mkPortfolio cash1 (shares st))
  end.

(** [cash + sum(shares[t] * prices[t] for t in tradable)] *)
Definition equity (st : portfolio) (tradable : list (string * Q)) : Q :=
  cash st + py_sum (map (fun tp => (shares st !!! fst tp) * snd tp) tradable).

(** The portfolio after the exit and the contribution step of one day. *)
Definition day_trade (monthly_contribution : Q) (cdays : list date)
    (day : date) (sigrow : list (string * bool)) (tradable : list (string * Q))
    (st : portfolio) : result portfolio :=
  let* st1 := exit_positions sigrow tradable st in
  if is_contribution_day day cdays
  then contribute monthly_contribution sigrow tradable st1
  else Ok st1.

(** One iteration of [for day in px.index].  [sig] holds one row for each
    date of [px], in the order of [px]: [r] is the row of [px] with the row
    of [sig] at the same position. *)
Definition day_step (cols sigcols : list string) (monthly_contribution : Q)
    (cdays : list date) (acc : portfolio * list (date * Q))
    (r : (date * list (option Q)) * (date * list bool))
  : result (portfolio * list (date * Q)) :=
  let day := fst (fst r) in
  let tradable := dropna (row_series cols (snd (fst r))) in
  let sigrow := row_series sigcols (snd (snd r)) in
  let* st := day_trade monthly_contribution cdays day sigrow tradable (fst acc) in
  Ok (st, snd acc ++ [(day, equity st tradable)]).

Fixpoint for_each {S R : Type} (body : S -> R -> result S) (acc : S) (l : list R) : result S :=
  match l with
  | [] => Ok acc
  | r :: rest => let* acc' := body acc r in for_each body acc' rest
  end.

(** [cash = 0.0] and [shares = {t: 0.0 for t in px.columns}] *)
Definition init_portfolio (cols : list string) : portfolio :=
  mkPortfolio 0 (list_to_map (map (fun t => (t, 0)) cols)).

(** The simulation loop: final portfolio and the equity points. *)
Definition simulate (px : DataFrame (option Q)) (sig : DataFrame bool)
    (monthly_contribution : Q) (cdays : list date)
  : result (portfolio * list (date * Q)) :=
  for_each (day_step (columns px) (columns sig) monthly_contribution cdays)
    (init_portfolio (columns px), []) (combine (rows px) (rows sig)).

(** The same loop stopped after the first [n] days. *)
Definition simulate_days (n : nat) (px : DataFrame (option Q)) (sig : DataFrame bool)
    (monthly_contribution : Q) (cdays : list date)
  : result (portfolio * list (date * Q)) :=
  for_each (day_step (columns px) (columns sig) monthly_contribution cdays)
    (init_portfolio (columns px), []) (take n (combine (rows px) (rows sig))).

(** The portfolio after the first [n] days. *)
Definition portfolio_after (n : nat) (px : DataFrame (option Q)) (sig : DataFrame bool)
    (monthly_contribution : Q) (cdays : list date) : result portfolio :=
  let* out := simulate_days n px sig monthly_contribution cdays in Ok (fst out).

(** The test of the exit loop: the position is held and its signal is off. *)
Definition sells (sigrow : list (string * bool)) (sh : gmap string Q) (tp : string * Q) : bool :=
  Qltb 0 (sh !!! fst tp) &&
  match series_get sigrow (fst tp) with
  | Ok false => true
  | _ => false
  end.

(** [pd.Series({d: v for d, v in points}).sort_index()]: one entry per date,
    the last value recorded for it, by increasing date. *)
Fixpoint series_insert (d : date) (v : Q) (s : list (date * Q)) : list (date * Q) :=
  match s with
  | [] => [(d, v)]
  | (d', v') :: r =>
      if (d <? d')%Z then (d, v) :: s
      else if (d =? d')%Z then (d, v) :: r
      else (d', v') :: series_insert d v r
  end.

Definition sorted_series (points : list (date * Q)) : list (date * Q) :=
  fold_left (fun s dv => series_insert (fst dv) (snd dv) s) points [].

(** [s.iloc[-1]] *)
Definition iloc_last {A : Type} (s : list A) : result A :=
  match last s with
  | Some x => Ok x
  | None => Err IndexError
  end.

(** [s.iloc[0]] *)
Definition iloc_first {A : Type} (s : list A) : result A :=
  match s with
  | x :: _ => Ok x
  | [] => Err IndexError
  end.

(** [(last - first).days / 365.25] *)
Definition period_years_of (first_date last_date : date) : Q :=
  inject_Z (last_date - first_date) / (1461 # 4).

(** [(final_value / invested) ** (1 / period_years) - 1
     if invested > 0 and period_years > 0 else 0.0].  The power is a
    symbol over its two operands.  For a negative base Python's power is
    complex and [float(cagr)] raises [TypeError]: the value then stands for
    no result of the code. *)
Definition compute_cagr (final_value invested period_years : Q)
  : result BacktestResult.cagr_value :=
  if Qltb 0 invested && Qltb 0 period_years then
    let* base := py_div final_value invested in
    let* exponent := py_div 1 period_years in
    Ok (BacktestResult.PowMinus1 base exponent)
  else Ok BacktestResult.Zero.

(** [run_backtest], returning the equity curve next to the result. *)
Definition run_backtest_curve (close : DataFrame (option Q)) (signals : DataFrame bool)
    (monthly_contribution : Q) (years : Z)
  : result (BacktestResult.t * list (date * Q)) :=
  if empty close then Err (ValueError "Close prices are empty.") else
  let px := backtest_window close years in
  let* sig := loc signals (index px) in
  if (length (rows px) <? 252)%nat then
    Err (ValueError "Not enough data for a meaningful backtest window.")
  else
  let cdays := contribution_days (index px) in
  let* final := simulate px sig monthly_contribution cdays in
  let equity_curve := sorted_series (snd final) in
  let invested := monthly_contribution * inject_Z (Z.of_nat (length cdays)) in
  let* last_point := iloc_last equity_curve in
  let final_value := snd last_point in
  let* first_point := iloc_first equity_curve in
  let period_years := period_years_of (fst first_point) (fst last_point) in
  let* cagr := compute_cagr final_value invested period_years in
  Ok (BacktestResult.mk cagr invested final_value (max_drawdown equity_curve)
        (length cdays), equity_curve).

Definition run_backtest (close : DataFrame (option Q)) (signals : DataFrame bool)
    (monthly_contribution : Q) (years : Z) : result BacktestResult.t :=
  let* out := run_backtest_curve close signals monthly_contribution years in
  Ok (fst out).

Definition BACKTEST_YEARS : Z := 5.

(** ** [apply_market_filter] *)

Definition USE_MARKET_FILTER : bool := true.

(** [market_signal.loc[day]] on a series indexed by date. *)
Fixpoint series_loc (s : list (date * bool)) (day : date) : result bool :=
  match s with
  | [] => Err KeyError
  | (d, b) :: r => if (d =? day)%Z then Ok b else series_loc r day
  end.

(** [day in market_signal.index] *)
Definition has_date (s : list (date * bool)) (day : date) : bool :=
  existsb (fun e => (fst e =? day)%Z) s.

(** The masking loop over the aligned rows:
    [if not bool(market_signal.loc[day]): aligned.loc[day, :] = False]. *)
Fixpoint mask_rows (market_signal : list (date * bool)) (rs : list (date * list bool))
  : result (list (date * list bool)) :=
  match rs with
  | [] => Ok []
  | (day, cells) :: rest =>
      let* m := series_loc market_signal day in
      let* out := mask_rows market_signal rest in
      Ok ((day, if negb m then map (fun _ => false) cells else cells) :: out)
  end.

(** [apply_market_filter] after the download of the proxy: [market_signal] is
    the proxy's signal series; [aligned] keeps the rows whose date is in
    [aligned.index.intersection(market_signal.index)]. *)
Definition apply_market_filter (market_signal : list (date * bool))
    (stock_signals : DataFrame bool) : result (DataFrame bool) :=
  if negb USE_MARKET_FILTER then Ok stock_signals else
  let aligned := List.filter (fun r => has_date market_signal (fst r)) (rows stock_signals) in
  let* masked := mask_rows market_signal aligned in
  Ok (mkFrame (columns stock_signals) masked).

(** ** [download_close_prices] *)

(** A frame as pandas has it: one cell per column in every row. *)
Definition full_rows {A : Type} (df : DataFrame A) : Prop :=
  forall r, In r (rows df) -> length (snd r) = length (columns df).

Definition has_price (c : option Q) : bool :=
  match c with
  | Some _ => true
  | None => false
  end.

(** [close.dropna(how="all")]: the rows with at least one price. *)
Definition dropna_all (rs : list (date * list (option Q))) : list (date * list (option Q)) :=
  List.filter (fun r => existsb has_price (snd r)) rs.

(** One cell of [ffill]: a missing price takes the last price above it. *)
Definition fill_cell (prev cell : option Q) : option Q :=
  match cell with
  | Some _ => cell
  | None => prev
  end.

(** [ffill] down the rows, [prev] being the filled row above. *)
Fixpoint ffill_from (prev : list (option Q)) (rs : list (date * list (option Q)))
  : list (date * list (option Q)) :=
  match rs with
  | [] => []
  | (d, cells) :: rest =>
      let cur := zip_with fill_cell prev cells in
      (d, cur) :: ffill_from cur rest
  end.

(** [close.ffill()] *)
Definition ffill (close : DataFrame (option Q)) : DataFrame (option Q) :=
  mkFrame (columns close)
    (ffill_from (replicate (length (columns close)) None) (rows close)).

(** [download_close_prices] from the frame [yf.download] returns on.  [data]
    is the block of close prices of that frame, its columns labelled by the
    tickers; the download, the selection of the block and, for a single
    ticker, the renaming of its column are outside the model. *)
Definition download_close_prices (data : DataFrame (option Q))
  : result (DataFrame (option Q)) :=
  if empty data then Err (ValueError "No data returned from yfinance.")
  else Ok (ffill (mkFrame (columns data) (dropna_all (rows data)))).

(** The ticker [t] has a price in the row [cells]. *)
Definition priced (cols : list string) (cells : list (option Q)) (t : string) : Prop :=
  In t (map fst (dropna (row_series cols cells))).

(** A ticker with a price in a row has one in every later row. *)
Definition forward_filled (close : DataFrame (option Q)) : Prop :=
  StronglySorted
    (fun r r' => forall t, priced (columns close) (snd r) t ->
                           priced (columns close) (snd r') t)
    (rows close).

(** ** [latest_signal_table] *)

(** [df.loc[d]]: the row labelled [d]. *)
Definition loc_row {A : Type} (df : DataFrame A) (d : date) : result (list (string * A)) :=
  match List.find (fun r => (fst r =? d)%Z) (rows df) with
  | Some r => Ok (row_series (columns df) (snd r))
  | None => Err KeyError
  end.

(** One more label in a list of labels kept in increasing order, without
    repetition. *)
Fixpoint label_insert (t : string) (l : list string) : list string :=
  match l with
  | [] => [t]
  | t' :: r =>
      if String.ltb t t' then t :: l
      else if String.eqb t t' then l
      else t' :: label_insert t r
  end.

(** The union of two row indexes, sorted. *)
Definition sorted_labels (l1 l2 : list string) : list string :=
  fold_left (fun acc t => label_insert t acc) (l1 ++ l2) [].

(** The cell of [t] in a column of the table: [NaN] where the series has no
    such label. *)
Definition cell_of {A : Type} (s : list (string * A)) (t : string) : option A :=
  match series_get s t with
  | Ok v => Some v
  | Err _ => None
  end.

(** [pd.DataFrame({"Price": close.loc[d], "Trend_OK": signals.loc[d]}).sort_index()]
    with [d = close.index[-1]]: one row per ticker, with its price ([None]
    for [NaN]) and its signal. *)
Definition latest_signal_table (close : DataFrame (option Q)) (signals : DataFrame bool)
  : result (list (string * (option Q * option bool))) :=
  let* last_row := iloc_last (rows close) in
  let d := fst last_row in
  let* price := loc_row close d in
  let* trend := loc_row signals d in
  Ok (map (fun t => (t, (match cell_of price t with Some (Some p) => Some p | _ => None end,
                         cell_of trend t)))
          (sorted_labels (map fst price) (map fst trend))).

(** ** [main] *)

(** [df.iloc[:, 0]] as a series indexed by date. *)
Definition iloc_column0 (df : DataFrame bool) : result (list (date * bool)) :=
  match columns df with
  | [] => Err IndexError
  | _ :: _ => Ok (map (fun r => (fst r, nth 0 (snd r) false)) (rows df))
  end.

(** [apply_market_filter] with its download: [market_data] is what the
    download of the proxy returns. *)
Definition apply_market_filter_download (market_data : DataFrame (option Q))
    (stock_signals : DataFrame bool) : result (DataFrame bool) :=
  if negb USE_MARKET_FILTER then Ok stock_signals else
  let* market_close := download_close_prices market_data in
  let* market_signal := iloc_column0 (build_signals market_close) in
  apply_market_filter market_signal stock_signals.


(** ** Example tables *)

(** [n] consecutive days from [start], the cells of day [i] being [cells i]. *)
Definition table_of {A : Type} (cols : list string) (start : date) (n : nat)
    (cells : nat -> list A) : DataFrame A :=
  mkFrame cols (map (fun i => ((start + Z.of_nat i)%Z, cells i)) (seq 0 n)).

(** Two tickers from 2024-01-01 (day 19723) on: the first rises by 1 a day
    from 100, the second is quoted at 50 from the eleventh day on. *)
Definition ex_close (n : nat) : DataFrame (option Q) :=
  table_of ["AAPL"; "MSFT"]%string 19723%Z n
    (fun i => [Some (100 + inject_Z (Z.of_nat i));
               if (i <? 10)%nat then None else Some 50]).

(** The first signal is on for 40 days, the second always. *)
Definition ex_signals (n : nat) : DataFrame bool :=
  table_of ["AAPL"; "MSFT"]%string 19723%Z n (fun i => [(i <? 40)%nat; true]).

Definition ex_px : DataFrame (option Q) := backtest_window (ex_close 252) BACKTEST_YEARS.

Definition ex_cdays : list date := contribution_days (index ex_px).

(** A proxy series over days 2 to 6 of the example tables, on from day 4. *)
Definition ex_market : list (date * bool) :=
  map (fun i => ((19723 + Z.of_nat i)%Z, (3 <=? i)%nat)) (seq 1 5).


(** A download of four days: the second quotes nothing, and each ticker has
    a gap. *)
Definition ex_data : DataFrame (option Q) :=
  mkFrame ["AAPL"; "MSFT"]%string
    [(19723%Z, [Some 10; None]); (19724%Z, [None; None]);
     (19725%Z, [None; Some 20]); (19726%Z, [Some 11; None])].

(** An equity curve that falls from 100 to 80 and from 120 to 90. *)
Definition ex_curve : list (date * Q) :=
  [(19723%Z, 100); (19724%Z, 80); (19725%Z, 120); (19726%Z, 90)].

(** The cash after the first [n] days. *)
Definition cash_after (n : nat) (px : DataFrame (option Q)) (sig : DataFrame bool)
    (monthly_contribution : Q) (cdays : list date) : result Q :=
  let* st := portfolio_after n px sig monthly_contribution cdays in Ok (cash st).

(** ** Predicates of the proofs *)

(** [groups] is the outcome of the month grouping on the dates [seen]: the
    months come in increasing order, each with the smallest date seen in it,
    and every date seen has its month. *)
Definition groups_of (seen : list date) (groups : list (Z * date)) : Prop :=
  StronglySorted Z.lt (map fst groups) /\
  (forall k d, In (k, d) groups ->
     to_period_M d = k /\ In d seen /\
     forall d', In d' seen -> to_period_M d' = k -> (d <= d')%Z) /\
  (forall d', In d' seen -> In (to_period_M d') (map fst groups)).



(** Cash and share counts are not negative. *)
Definition long_only (st : portfolio) : Prop :=
  0 <= cash st /\ forall t, 0 <= shares st !!! t.

(** The only exceptions [m] can raise are those of [P]. *)
Definition raises_only {A : Type} (P : error -> Prop) (m : result A) : Prop :=
  forall e, m = Err e -> P e.

(** * Properties *)

Arguments Qplus : simpl never.
Arguments Qmult : simpl never.
Arguments Qdiv : simpl never.
Arguments Qminus : simpl never.
Arguments Qmax : simpl never.
Arguments to_period_M : simpl never.
Arguments sub_years : simpl never.

Example civil_epoch : civil_from_days 0%Z = (1970, 1, 1)%Z.
Proof. reflexivity. Qed.

Example civil_roundtrip :
  civil_from_days (days_from_civil 2024 2 29) = (2024, 2, 29)%Z.
Proof. reflexivity. Qed.

Example sub_years_leap :
  civil_from_days (sub_years (days_from_civil 2024 2 29) 5) = (2019, 2, 28)%Z.
Proof. reflexivity. Qed.

(** ** Comparisons and the error monad *)

Lemma Qltb_lt (x y : Q) : Qltb x y = true <-> x < y.
Proof.
  unfold Qltb. rewrite negb_true_iff. split.
  - intros H. apply Qnot_le_lt. intros Hle. apply Qle_bool_iff in Hle. congruence.
  - intros H. destruct (Qle_bool y x) eqn:E; [|reflexivity].
    apply Qle_bool_iff in E. lra.
Qed.

Lemma Qltb_ge (x y : Q) : Qltb x y = false <-> y <= x.
Proof. unfold Qltb. rewrite negb_false_iff. apply Qle_bool_iff. Qed.

Lemma rbind_Ok {A B : Type} (m : result A) (k : A -> result B) (b : B) :
  rbind m k = Ok b -> exists a, m = Ok a /\ k a = Ok b.
Proof. destruct m as [a|e]; simpl; [eauto | discriminate]. Qed.

Ltac inv_bind H :=
  let a := fresh "a" in
  let Ha := fresh "H" a in
  apply rbind_Ok in H; destruct H as (a & Ha & H).

Section ForEach.
Context {S R : Type} (body : S -> R -> result S).

Lemma for_each_app (acc : S) (l1 l2 : list R) :
  for_each body acc (l1 ++ l2) =
  rbind (for_each body acc l1) (fun a => for_each body a l2).
Proof.
  revert acc. induction l1 as [|r l1 IH]; intros acc; simpl; [reflexivity|].
  destruct (body acc r); simpl; [apply IH | reflexivity].
Qed.

Lemma for_each_prefix (acc out : S) (l : list R) (n : nat) :
  for_each body acc l = Ok out ->
  exists mid, for_each body acc (take n l) = Ok mid /\
              for_each body mid (drop n l) = Ok out.
Proof.
  intros H. rewrite <- (take_drop n l) in H at 1.
  rewrite for_each_app in H. inv_bind H. eauto.
Qed.

(** An invariant of the loop body is an invariant of the loop. *)
Lemma for_each_invariant (P : S -> Prop) (acc out : S) (l : list R) :
  (forall s r s', In r l -> P s -> body s r = Ok s' -> P s') ->
  P acc -> for_each body acc l = Ok out -> P out.
Proof.
  revert acc. induction l as [|r l IH]; intros acc Hstep Hacc H; simpl in H.
  - congruence.
  - inv_bind H. eapply IH; [| |exact H].
    + intros s r' s' Hin. apply Hstep. now right.
    + eapply Hstep; [now left | exact Hacc | exact Ha].
Qed.
End ForEach.

(** ** Alignment of the signal table *)

Lemma loc_rows_index {A : Type} (rs : list (date * list A)) (labels : list date)
    (out : list (date * list A)) :
  loc_rows rs labels = Ok out -> map fst out = labels.
Proof.
  revert out. induction labels as [|d ls IH]; intros out H; simpl in H.
  - now inversion H.
  - destruct (List.find (fun r => (fst r =? d)%Z) rs) as [r|] eqn:Hf; [|discriminate].
    inv_bind H. inversion H; subst out. simpl.
    apply find_some in Hf. destruct Hf as [_ Hd]. apply Z.eqb_eq in Hd.
    f_equal; [exact Hd | now apply IH].
Qed.

Lemma loc_index {A : Type} (df out : DataFrame A) (labels : list date) :
  loc df labels = Ok out -> index out = labels /\ columns out = columns df.
Proof.
  unfold loc. intros H. inv_bind H. inversion H; subst out.
  split; [exact (loc_rows_index _ _ _ Ha) | reflexivity].
Qed.

Lemma combine_aligned_days {A B : Type} (l1 : list (date * A)) (l2 : list (date * B)) :
  map fst l2 = map fst l1 ->
  map (fun r => fst (fst r)) (combine l1 l2) = map fst l1.
Proof.
  revert l2. induction l1 as [|x l1 IH]; intros [|y l2] H; simpl in *;
    try discriminate; [reflexivity|].
  injection H as _ H2. f_equal. apply IH, H2.
Qed.

Lemma combine_aligned_lookup {A B : Type} (l1 : list (date * A)) (l2 : list (date * B))
    (i : nat) (x : date * A) :
  map fst l2 = map fst l1 -> l1 !! i = Some x ->
  exists y, l2 !! i = Some y /\ fst y = fst x /\ combine l1 l2 !! i = Some (x, y).
Proof.
  revert l2 i. induction l1 as [|a l1 IH]; intros [|b l2] [|i] H Hx; simpl in *;
    try discriminate.
  - injection H as H1 _. inversion Hx; subst. eauto.
  - injection H as _ H2. now apply IH.
Qed.

(** ** The equity points of the loop *)

Section Loop.
Variables (cols sigcols : list string) (c : Q) (cdays : list date).

Local Abbreviation body := (day_step cols sigcols c cdays).

Lemma day_step_points acc r acc' :
  body acc r = Ok acc' ->
  snd acc' = snd acc ++
    [(fst (fst r), equity (fst acc') (dropna (row_series cols (snd (fst r)))))].
Proof.
  unfold day_step. intros H. inv_bind H. now inversion H.
Qed.

Lemma loop_points acc out l :
  for_each body acc l = Ok out ->
  exists ext, snd out = snd acc ++ ext /\
              map fst ext = map (fun r => fst (fst r)) l.
Proof.
  revert acc. induction l as [|r l IH]; intros acc H; simpl in H.
  - inversion H. exists []. now rewrite app_nil_r.
  - inv_bind H. apply day_step_points in Ha. destruct (IH _ H) as (ext & He & Hd).
    eexists (_ :: ext). split.
    + rewrite He, Ha, <- app_assoc. reflexivity.
    + simpl. now rewrite Hd.
Qed.

(** The point recorded for day [i] is the valuation of the portfolio
    reached after day [i]. *)
Lemma loop_point_at acc out l i r :
  snd acc = [] -> for_each body acc l = Ok out -> l !! i = Some r ->
  exists mid, for_each body acc (take (S i) l) = Ok mid /\
    snd out !! i =
      Some (fst (fst r), equity (fst mid) (dropna (row_series cols (snd (fst r))))).
Proof.
  intros Hnil H Hr.
  destruct (for_each_prefix body _ _ _ (S i) H) as (mid & Hmid & Hrest).
  exists mid. split; [exact Hmid|].
  rewrite (take_S_r _ _ _ Hr), for_each_app in Hmid. inv_bind Hmid.
  simpl in Hmid. inv_bind Hmid. inversion Hmid; subst a0. clear Hmid.
  apply loop_points in Ha. destruct Ha as (e0 & He0 & Hd0).
  apply day_step_points in Ha0.
  apply loop_points in Hrest. destruct Hrest as (e1 & He1 & _).
  rewrite He1, Ha0, He0, Hnil. simpl.
  assert (Hlen : length e0 = i).
  { rewrite <- (length_map fst e0), Hd0, length_map, length_take.
    apply lookup_lt_Some in Hr. lia. }
  rewrite <- app_assoc. rewrite lookup_app_r by lia.
  rewrite Hlen, Nat.sub_diag. reflexivity.
Qed.
End Loop.

(** ** The equity curve as a sorted series *)

Lemma series_insert_last (d : date) (v : Q) (s : list (date * Q)) :
  Forall (fun e => (fst e < d)%Z) s -> series_insert d v s = s ++ [(d, v)].
Proof.
  induction 1 as [|[d' v'] s Hlt _ IH]; simpl; [reflexivity|].
  simpl in Hlt.
  destruct (Z.ltb_spec d d'); [lia|].
  destruct (Z.eqb_spec d d'); [lia|].
  now rewrite IH.
Qed.

Lemma sorted_series_from (s pts : list (date * Q)) :
  StronglySorted Z.lt (map fst (s ++ pts)) ->
  fold_left (fun s dv => series_insert (fst dv) (snd dv) s) pts s = s ++ pts.
Proof.
  revert s. induction pts as [|[d v] pts IH]; intros s Hs; simpl.
  - now rewrite app_nil_r.
  - assert (Hins : series_insert d v s = s ++ [(d, v)]).
    { apply series_insert_last.
      rewrite map_app in Hs. apply StronglySorted_app in Hs.
      destruct Hs as (Hall & _ & _).
      apply Forall_forall. intros e He. apply Hall.
      - apply list_elem_of_In in He. apply list_elem_of_In. now apply in_map.
      - rewrite list_elem_of_In. now left. }
    rewrite Hins, IH; rewrite <- app_assoc; [reflexivity | exact Hs].
Qed.

(** On strictly increasing dates the dictionary and the sort change nothing. *)
Lemma sorted_series_increasing (pts : list (date * Q)) :
  StronglySorted Z.lt (map fst pts) -> sorted_series pts = pts.
Proof. intros H. unfold sorted_series. now rewrite sorted_series_from. Qed.

(** ** The backtest window *)

Lemma filter_rows_index {A : Type} (f : date -> bool) (rs : list (date * A)) :
  map fst (List.filter (fun r => f (fst r)) rs) = List.filter f (map fst rs).
Proof.
  induction rs as [|r rs IH]; simpl; [reflexivity|].
  destruct (f (fst r)); simpl; now rewrite IH.
Qed.

Lemma StronglySorted_list_filter {A : Type} (R : A -> A -> Prop) (f : A -> bool) (l : list A) :
  StronglySorted R l -> StronglySorted R (List.filter f l).
Proof.
  induction 1 as [|x l Hs IH Hall]; simpl; [constructor|].
  destruct (f x); [|exact IH].
  constructor; [exact IH|].
  apply Forall_forall. intros y Hy. rewrite list_elem_of_In in Hy.
  apply filter_In in Hy. rewrite Forall_forall in Hall.
  apply Hall. rewrite list_elem_of_In. apply Hy.
Qed.

Lemma backtest_window_index (close : DataFrame (option Q)) (years : Z) :
  index (backtest_window close years) =
  List.filter (fun d => (sub_years (index_max (index close)) years <=? d)%Z) (index close).
Proof. unfold backtest_window, index. simpl. apply filter_rows_index. Qed.

Lemma backtest_window_sorted (close : DataFrame (option Q)) (years : Z) :
  StronglySorted Z.lt (index close) ->
  StronglySorted Z.lt (index (backtest_window close years)).
Proof.
  intros H. rewrite backtest_window_index. now apply StronglySorted_list_filter.
Qed.

(** ** Unfolding a successful run *)

Lemma run_backtest_curve_Ok close signals c years res curve :
  run_backtest_curve close signals c years = Ok (res, curve) ->
  let px := backtest_window close years in
  let cdays := contribution_days (index px) in
  exists sig final last_point first_point cagr,
    empty close = false /\
    loc signals (index px) = Ok sig /\
    (252 <= length (rows px))%nat /\
    simulate px sig c cdays = Ok final /\
    curve = sorted_series (snd final) /\
    iloc_last curve = Ok last_point /\
    iloc_first curve = Ok first_point /\
    compute_cagr (snd last_point) (c * inject_Z (Z.of_nat (length cdays)))
      (period_years_of (fst first_point) (fst last_point)) = Ok cagr /\
    res = BacktestResult.mk cagr (c * inject_Z (Z.of_nat (length cdays)))
            (snd last_point) (max_drawdown curve) (length cdays).
Proof.
  intros H px cdays. unfold run_backtest_curve in H.
  destruct (empty close) eqn:He; [discriminate|].
  inv_bind H. fold px in Ha, H.
  destruct (Nat.ltb_spec (length (rows px)) 252); [discriminate|].
  fold cdays in H. inv_bind H. inv_bind H. inv_bind H. inv_bind H.
  inversion H; subst res curve.
  exists a, a0, a1, a2, a3. repeat split; assumption || reflexivity.
Qed.

Lemma simulate_dates px sig c cdays final :
  index sig = index px ->
  simulate px sig c cdays = Ok final ->
  map fst (snd final) = index px.
Proof.
  intros Hidx H. unfold simulate in H.
  apply loop_points in H. destruct H as (ext & He & Hd). simpl in He.
  rewrite He, Hd. now apply combine_aligned_days.
Qed.

(** ** One day inside a run *)

(** Day [i] of the loop takes the portfolio reached after [i] days through
    [day_trade] on that day's prices and signals. *)
Lemma simulate_day px sig c cdays final i day cells :
  index sig = index px ->
  simulate px sig c cdays = Ok final ->
  rows px !! i = Some (day, cells) ->
  exists sigcells st0 st2,
    rows sig !! i = Some (day, sigcells) /\
    portfolio_after i px sig c cdays = Ok st0 /\
    portfolio_after (S i) px sig c cdays = Ok st2 /\
    day_trade c cdays day (row_series (columns sig) sigcells)
      (dropna (row_series (columns px) cells)) st0 = Ok st2.
Proof.
  intros Hidx Hsim Hrow.
  destruct (combine_aligned_lookup (rows px) (rows sig) i _ Hidx Hrow)
    as ([day' sigcells] & Hsig & Hday & Hc).
  simpl in Hday. subst day'.
  unfold simulate in Hsim.
  destruct (for_each_prefix _ _ _ _ (S i) Hsim) as (mid & Hmid & _).
  pose proof Hmid as Hmid'.
  rewrite (take_S_r _ _ _ Hc), for_each_app in Hmid. inv_bind Hmid.
  simpl in Hmid. inv_bind Hmid. inversion Hmid; subst a0. clear Hmid.
  unfold day_step in Ha0. simpl in Ha0. inv_bind Ha0. inversion Ha0; subst mid.
  exists sigcells, (fst a), a0. repeat split.
  - exact Hsig.
  - unfold portfolio_after, simulate_days. now rewrite Ha.
  - unfold portfolio_after, simulate_days. now rewrite Hmid'.
  - exact Ha1.
Qed.

(** ** The exit loop *)

Section Exit.
Variable sigrow : list (string * bool).

(** Positions the loop does not sell are left as they are; sold ones are
    at zero. *)
Lemma exit_positions_shares tradable st st1 t :
  exit_positions sigrow tradable st = Ok st1 ->
  shares st1 !!! t = shares st !!! t \/ shares st1 !!! t = 0.
Proof.
  revert st. induction tradable as [|[t' p] rest IH]; intros st H; simpl in H.
  - inversion H. now left.
  - destruct (Qltb 0 (shares st !!! t')) eqn:Hheld; [|now apply IH].
    inv_bind H. destruct a; simpl in H; [now apply IH|].
    apply IH in H. simpl in H.
    destruct (decide (t' = t)) as [->|Hne].
    + rewrite lookup_total_insert_eq in H. right. now destruct H.
    + now rewrite lookup_total_insert_ne in H.
Qed.

Lemma exit_positions_sold tradable st st1 t p :
  exit_positions sigrow tradable st = Ok st1 ->
  In (t, p) tradable ->
  0 < shares st !!! t ->
  series_get sigrow t = Ok false ->
  shares st1 !!! t = 0.
Proof.
  revert st. induction tradable as [|[t' p'] rest IH]; intros st H Hin Hheld Hsig;
    simpl in H; [contradiction|].
  destruct Hin as [Heq|Hin].
  - inversion Heq; subst t' p'. apply Qltb_lt in Hheld. rewrite Hheld, Hsig in H.
    simpl in H. apply (exit_positions_shares _ _ _ t) in H. simpl in H.
    rewrite lookup_total_insert_eq in H. now destruct H.
  - destruct (Qltb 0 (shares st !!! t')) eqn:Hheld'; [|now apply IH in H].
    inv_bind H. destruct a; simpl in H; [now apply IH in H|].
    destruct (decide (t' = t)) as [->|Hne].
    + apply (exit_positions_shares _ _ _ t) in H. simpl in H.
      rewrite lookup_total_insert_eq in H. now destruct H.
    + apply IH in H; [exact H | exact Hin | | exact Hsig].
      simpl. now rewrite lookup_total_insert_ne.
Qed.

(** A ticker whose signal is on keeps its shares through the exit loop. *)
Lemma exit_positions_kept tradable st st1 t :
  exit_positions sigrow tradable st = Ok st1 ->
  series_get sigrow t = Ok true ->
  shares st1 !!! t = shares st !!! t.
Proof.
  revert st. induction tradable as [|[t' p'] rest IH]; intros st H Hsig; simpl in H.
  - now inversion H.
  - destruct (Qltb 0 (shares st !!! t')) eqn:Hheld'; [|now apply IH in H].
    inv_bind H. destruct a; simpl in H; [now apply IH in H|].
    apply IH in H; [|exact Hsig]. simpl in H.
    rewrite lookup_total_insert_ne in H; [exact H|].
    intros ->. congruence.
Qed.

(** The proceeds of the exit loop, ticker by ticker. *)
Lemma exit_positions_cash tradable st st1 :
  NoDup (map fst tradable) ->
  exit_positions sigrow tradable st = Ok st1 ->
  cash st1 =
    fold_left (fun acc tp => acc + (shares st !!! fst tp) * snd tp)
      (List.filter (sells sigrow (shares st)) tradable) (cash st).
Proof.
  revert st. induction tradable as [|[t p] rest IH]; intros st Hnd H; simpl in H.
  - now inversion H.
  - simpl in Hnd. apply NoDup_cons in Hnd. destruct Hnd as [Hnotin Hnd].
    simpl. unfold sells at 1. simpl.
    destruct (Qltb 0 (shares st !!! t)) eqn:Hheld; simpl; [|now apply IH].
    inv_bind H. rewrite Ha. destruct a; simpl in H |- *; [now apply IH|].
    apply IH in H; [|exact Hnd]. simpl in H. rewrite H.
    assert (Hsame : forall tp, In tp rest ->
              (<[t:=0]> (shares st) : gmap string Q) !!! fst tp = shares st !!! fst tp).
    { intros tp Hin. apply lookup_total_insert_ne. intros ->.
      apply Hnotin. apply list_elem_of_In. now apply in_map. }
    clear -Hsame. generalize (cash st + shares st !!! t * p) as acc.
    induction rest as [|tp rest IHr]; intros acc; simpl; [reflexivity|].
    assert (Hs : sells sigrow (<[t:=0]> (shares st)) tp = sells sigrow (shares st) tp).
    { unfold sells. rewrite Hsame by now left. reflexivity. }
    rewrite Hs. destruct (sells sigrow (shares st) tp); simpl.
    + rewrite Hsame by now left. apply IHr. intros; apply Hsame; now right.
    + apply IHr. intros; apply Hsame; now right.
Qed.
End Exit.

(** ** The contribution step *)

Lemma dropna_sublist (s : list (string * option Q)) :
  sublist (map fst (dropna s)) (map fst s).
Proof.
  induction s as [|[t [p|]] s IH]; simpl.
  - constructor.
  - now apply sublist_skip.
  - now apply sublist_cons.
Qed.

Lemma combine_fst_sublist {A B : Type} (l1 : list A) (l2 : list B) :
  sublist (map fst (combine l1 l2)) l1.
Proof.
  revert l2. induction l1 as [|x l1 IH]; intros [|y l2]; simpl.
  - constructor.
  - constructor.
  - apply sublist_nil_l.
  - apply sublist_skip, IH.
Qed.

Lemma sublist_map {A B : Type} (f : A -> B) (l1 l2 : list A) :
  sublist l1 l2 -> sublist (map f l1) (map f l2).
Proof. induction 1; simpl; now constructor. Qed.

Lemma tradable_NoDup (cols : list string) (cells : list (option Q)) :
  NoDup cols -> NoDup (map fst (dropna (row_series cols cells))).
Proof.
  intros H. eapply sublist_NoDup; [|apply dropna_sublist].
  eapply sublist_NoDup; [exact H | apply combine_fst_sublist].
Qed.

Lemma dropna_price (s : list (string * option Q)) (t : string) (p : Q) :
  In (t, p) (dropna s) <-> In (t, Some p) s.
Proof.
  induction s as [|[t' [p'|]] s IH]; simpl; [tauto| |].
  - rewrite IH. split; (intros [H|H]; [left; congruence | now right]).
  - rewrite IH. split; [now right | intros [H|H]; [discriminate | exact H]].
Qed.

Section Contribute.
Variable sigrow : list (string * bool).

Lemma active_of_spec tradable active :
  active_of sigrow tradable = Ok active ->
  sublist active tradable /\
  forall t p, In (t, p) active <-> In (t, p) tradable /\ series_get sigrow t = Ok true.
Proof.
  revert active. induction tradable as [|[t' p'] rest IH]; intros active H; simpl in H.
  - inversion H. split; [constructor | simpl; tauto].
  - inv_bind H. inv_bind H. inversion H; subst active. clear H.
    destruct (IH _ Ha0) as [Hsub Hin]. destruct a; split.
    + now apply sublist_skip.
    + intros t p. simpl. rewrite Hin. split.
      * intros [Heq|[H1 H2]]; [inversion Heq; subst; auto | auto].
      * intros [[Heq|H1] H2]; auto.
    + now apply sublist_cons.
    + intros t p. simpl. rewrite Hin. split.
      * intros [H1 H2]; auto.
      * intros [[Heq|H1] H2]; [inversion Heq; subst; congruence | auto].
Qed.

Lemma active_of_NoDup tradable active :
  active_of sigrow tradable = Ok active ->
  NoDup (map fst tradable) -> NoDup (map fst active).
Proof.
  intros H Hnd. apply active_of_spec in H. destruct H as [Hsub _].
  eapply sublist_NoDup; [exact Hnd|]. now apply sublist_map.
Qed.

Lemma buy_other per_name active (sh : gmap string Q) t :
  ~ In t (map fst active) -> buy per_name active sh !!! t = sh !!! t.
Proof.
  unfold buy. revert sh. induction active as [|[t' p'] rest IH]; intros sh Hnot; simpl.
  - reflexivity.
  - simpl in Hnot. rewrite IH by tauto.
    apply lookup_total_insert_ne. intros ->. tauto.
Qed.

Lemma buy_gain per_name active (sh : gmap string Q) t p :
  NoDup (map fst active) -> In (t, p) active ->
  buy per_name active sh !!! t = sh !!! t + per_name / p.
Proof.
  unfold buy. revert sh. induction active as [|[t' p'] rest IH]; intros sh Hnd Hin;
    simpl in *; [contradiction|].
  apply NoDup_cons in Hnd. destruct Hnd as [Hnotin Hnd].
  destruct Hin as [Heq|Hin].
  - inversion Heq; subst t' p'.
    fold (buy per_name rest (<[t:=sh !!! t + per_name / p]> sh)).
    rewrite buy_other by (rewrite <- list_elem_of_In; exact Hnotin).
    apply lookup_total_insert_eq.
  - rewrite IH by assumption.
    rewrite lookup_total_insert_ne; [reflexivity|].
    intros ->. apply Hnotin. apply list_elem_of_In. now apply (in_map fst _ (t, p)).
Qed.

(** What [contribute] does, by the two branches of its guard. *)
Lemma contribute_spec c tradable st st2 :
  NoDup (map fst tradable) ->
  contribute c sigrow tradable st = Ok st2 ->
  exists active,
    active_of sigrow tradable = Ok active /\
    (active <> [] -> 0 < cash st + c ->
       cash st2 = 0 /\
       (forall t p, In (t, p) active ->
          shares st2 !!! t =
          shares st !!! t + (cash st + c) / inject_Z (Z.of_nat (length active)) / p) /\
       (forall t, ~ In t (map fst active) -> shares st2 !!! t = shares st !!! t)) /\
    (active = [] \/ cash st + c <= 0 ->
       shares st2 = shares st /\ cash st2 = cash st + c).
Proof.
  intros Hnd H. unfold contribute in H. inv_bind H. exists a. split; [exact Ha|].
  pose proof (active_of_NoDup _ _ Ha Hnd) as Hnda.
  destruct a as [|tp act].
  - inversion H; subst st2. simpl. split; [congruence | auto].
  - destruct (Qltb 0 (cash st + c)) eqn:Hpos; injection H as <-; cbn [cash shares].
    + apply Qltb_lt in Hpos. split.
      * intros _ _. split; [reflexivity|]. split.
        -- intros t p Hin. exact (buy_gain _ (tp :: act) (shares st) t p Hnda Hin).
        -- intros t Hnot. exact (buy_other _ (tp :: act) (shares st) t Hnot).
      * intros [Hnil|Hle]; [discriminate | lra].
    + apply Qltb_ge in Hpos. split.
      * intros _ Hlt. lra.
      * auto.
Qed.
End Contribute.

(** C2, as amended.  On a contribution day of a run over uniquely labelled
    columns, with [st1] the portfolio between the exit loop and the
    contribution step and [st2] the one after it: when some ticker is active
    and the cash including the contribution is positive, the cash is exactly
    0 afterwards, every active ticker gains (cash / number of active
    tickers) / price shares and no other share count moves; when no ticker
    is active, or that cash is not positive, no share count moves and the
    cash is the earlier cash plus the contribution. *)
Theorem contribution_step_allocates close signals c years res curve :
  run_backtest_curve close signals c years = Ok (res, curve) ->
  NoDup (columns close) ->
  let px := backtest_window close years in
  let cdays := contribution_days (index px) in
  forall i day cells,
    rows px !! i = Some (day, cells) ->
    is_contribution_day day cdays = true ->
    exists sig sigcells st0 st1 st2 active,
      let sigrow := row_series (columns sig) sigcells in
      let tradable := dropna (row_series (columns px) cells) in
      loc signals (index px) = Ok sig /\
      rows sig !! i = Some (day, sigcells) /\
      portfolio_after i px sig c cdays = Ok st0 /\
      exit_positions sigrow tradable st0 = Ok st1 /\
      portfolio_after (S i) px sig c cdays = Ok st2 /\
      active_of sigrow tradable = Ok active /\
      (forall t p, In (t, p) active <->
                   In (t, p) tradable /\ series_get sigrow t = Ok true) /\
      (active <> [] -> 0 < cash st1 + c ->
         cash st2 = 0 /\
         (forall t p, In (t, p) active ->
            shares st2 !!! t =
            shares st1 !!! t + (cash st1 + c) / inject_Z (Z.of_nat (length active)) / p) /\
         (forall t, ~ In t (map fst active) -> shares st2 !!! t = shares st1 !!! t)) /\
      (active = [] \/ cash st1 + c <= 0 ->
         shares st2 = shares st1 /\ cash st2 = cash st1 + c).
Proof.
  intros Hrun Hnd px cdays i day cells Hrow Hcd.
  apply run_backtest_curve_Ok in Hrun.
  destruct Hrun as (sig & final & lp & fp & cg & _ & Hloc & _ & Hsim & _).
  fold px in Hloc, Hsim. fold cdays in Hsim.
  destruct (loc_index _ _ _ Hloc) as [Hidx _].
  destruct (simulate_day _ _ _ _ _ _ _ _ Hidx Hsim Hrow)
    as (sigcells & st0 & st2 & Hsig & H0 & H2 & Hday).
  unfold day_trade in Hday. inv_bind Hday. rewrite Hcd in Hday.
  assert (Hndt : NoDup (map fst (dropna (row_series (columns px) cells))))
    by now apply tradable_NoDup.
  destruct (contribute_spec _ _ _ _ _ Hndt Hday) as (active & Hact & Hbuy & Hkeep).
  exists sig, sigcells, st0, a, st2, active. cbv zeta.
  split; [exact Hloc|]. split; [exact Hsig|]. split; [exact H0|].
  split; [exact Ha|]. split; [exact H2|]. split; [exact Hact|].
  split; [exact (proj2 (active_of_spec _ _ _ Hact))|].
  split; [exact Hbuy | exact Hkeep].
Qed.

(** A ticker that is not active is not touched by the contribution step. *)
Lemma contribute_inactive sigrow c tradable st st2 t :
  contribute c sigrow tradable st = Ok st2 ->
  series_get sigrow t <> Ok true ->
  shares st2 !!! t = shares st !!! t.
Proof.
  intros H Hsig. unfold contribute in H. inv_bind H.
  assert (Hnot : ~ In t (map fst a)).
  { intros Hin. apply in_map_iff in Hin. destruct Hin as ([t' p] & Heq & Hin).
    simpl in Heq. subst t'. apply (active_of_spec _ _ _ Ha) in Hin. tauto. }
  destruct a as [|tp act]; [now injection H as <-|].
  destruct (Qltb 0 (cash st + c)); injection H as <-; cbn [shares]; [|reflexivity].
  exact (buy_other _ (tp :: act) (shares st) t Hnot).
Qed.

(** C3. On every simulated date of a run the exit loop runs on the portfolio
    of the previous day, and the contribution step, if the date is a
    contribution day, runs on the outcome of the exit loop.  The cash after
    the exit loop is the earlier cash plus shares x price of every position
    sold, and a tradable ticker that was held with its signal off holds no
    share after the exit loop and still none after the contribution step. *)
Theorem exits_precede_contribution close signals c years res curve :
  run_backtest_curve close signals c years = Ok (res, curve) ->
  NoDup (columns close) ->
  let px := backtest_window close years in
  let cdays := contribution_days (index px) in
  forall i day cells,
    rows px !! i = Some (day, cells) ->
    exists sig sigcells st0 st1 st2,
      let sigrow := row_series (columns sig) sigcells in
      let tradable := dropna (row_series (columns px) cells) in
      loc signals (index px) = Ok sig /\
      rows sig !! i = Some (day, sigcells) /\
      portfolio_after i px sig c cdays = Ok st0 /\
      exit_positions sigrow tradable st0 = Ok st1 /\
      (if is_contribution_day day cdays
       then contribute c sigrow tradable st1 else Ok st1) = Ok st2 /\
      portfolio_after (S i) px sig c cdays = Ok st2 /\
      cash st1 =
        fold_left (fun acc tp => acc + (shares st0 !!! fst tp) * snd tp)
          (List.filter (sells sigrow (shares st0)) tradable) (cash st0) /\
      forall t p,
        In (t, p) tradable -> 0 < shares st0 !!! t -> series_get sigrow t = Ok false ->
        In (t, p) (List.filter (sells sigrow (shares st0)) tradable) /\
        shares st1 !!! t = 0 /\ shares st2 !!! t = 0.
Proof.
  intros Hrun Hnd px cdays i day cells Hrow.
  apply run_backtest_curve_Ok in Hrun.
  destruct Hrun as (sig & final & lp & fp & cg & _ & Hloc & _ & Hsim & _).
  fold px in Hloc, Hsim. fold cdays in Hsim.
  destruct (loc_index _ _ _ Hloc) as [Hidx _].
  destruct (simulate_day _ _ _ _ _ _ _ _ Hidx Hsim Hrow)
    as (sigcells & st0 & st2 & Hsig & H0 & H2 & Hday).
  unfold day_trade in Hday. inv_bind Hday.
  assert (Hndt : NoDup (map fst (dropna (row_series (columns px) cells))))
    by now apply tradable_NoDup.
  exists sig, sigcells, st0, a, st2. cbv zeta.
  split; [exact Hloc|]. split; [exact Hsig|]. split; [exact H0|].
  split; [exact Ha|]. split; [exact Hday|]. split; [exact H2|].
  split; [now apply exit_positions_cash|].
  intros t p Hin Hheld Hoff.
  assert (H1 : shares a !!! t = 0) by (eapply exit_positions_sold; eassumption).
  split; [|split; [exact H1|]].
  - apply filter_In. split; [exact Hin|]. unfold sells. simpl.
    rewrite Hoff. now apply Qltb_lt in Hheld as ->.
  - destruct (is_contribution_day day cdays).
    + rewrite <- H1. eapply contribute_inactive; [exact Hday | congruence].
    + injection Hday as <-. exact H1.
Qed.

(** ** Contribution days *)

Section GroupMin.
Variables (k : Z) (d : date).

Lemma group_min_keys groups k' :
  In k' (map fst (group_min k d groups)) <-> k' = k \/ In k' (map fst groups).
Proof.
  induction groups as [|[k1 d1] r IH]; simpl.
  - intuition.
  - destruct (Z.ltb_spec k k1); [simpl; intuition|].
    destruct (Z.eqb_spec k k1); simpl; [intuition congruence|].
    rewrite IH. intuition.
Qed.

Lemma group_min_sorted groups :
  StronglySorted Z.lt (map fst groups) ->
  StronglySorted Z.lt (map fst (group_min k d groups)).
Proof.
  induction groups as [|[k1 d1] r IH]; simpl; intros Hs.
  - repeat constructor.
  - apply StronglySorted_inv in Hs. destruct Hs as [Hr Hall].
    destruct (Z.ltb_spec k k1); [|destruct (Z.eqb_spec k k1)]; simpl.
    + constructor; [now constructor|].
      constructor; [exact H|]. eapply Forall_impl; [exact Hall|].
      simpl. intros; lia.
    + now constructor.
    + constructor; [now apply IH|].
      apply Forall_forall. intros k' Hk'. apply list_elem_of_In in Hk'.
      apply group_min_keys in Hk'. destruct Hk' as [->|Hk']; [lia|].
      rewrite Forall_forall in Hall. apply Hall. now apply list_elem_of_In.
Qed.

(** The entries after one more date: the group of [k] holds the smaller of
    its former minimum and [d], the other groups are as before. *)
Lemma group_min_entries groups k' d' :
  StronglySorted Z.lt (map fst groups) ->
  In (k', d') (group_min k d groups) <->
  (k' <> k /\ In (k', d') groups) \/
  (k' = k /\ ((exists d0, In (k, d0) groups /\ d' = Z.min d0 d) \/
              (~ In k (map fst groups) /\ d' = d))).
Proof.
  induction groups as [|[k1 d1] r IH]; simpl; intros Hs.
  - split.
    + intros [Heq|[]]. inversion Heq. right. split; [reflexivity|]. right. tauto.
    + intros [[_ []]|[-> [(d0 & [] & _)|[_ ->]]]]. now left.
  - apply StronglySorted_inv in Hs. destruct Hs as [Hr Hall].
    assert (Hgt : forall x, In x (map fst r) -> (k1 < x)%Z).
    { intros x Hx. rewrite Forall_forall in Hall. apply Hall.
      now apply list_elem_of_In. }
    assert (Hpair : forall x y, In (x, y) r -> (k1 < x)%Z).
    { intros x y Hxy. apply Hgt. now apply (in_map fst _ (x, y)). }
    destruct (Z.ltb_spec k k1); [|destruct (Z.eqb_spec k k1)]; simpl.
    + split.
      * intros [Heq|[Heq|Hin]].
        -- inversion Heq; subst. right. split; [reflexivity|]. right.
           split; [|reflexivity]. intros [Hk|Hk]; [lia|]. apply Hgt in Hk. lia.
        -- inversion Heq; subst. left. split; [lia | now left].
        -- left. split; [|now right]. apply Hpair in Hin. lia.
      * intros [[Hne [Heq|Hin]]|[-> [(d0 & [Heq|Hin] & _)|[_ ->]]]]; auto.
        -- inversion Heq; lia.
        -- apply Hpair in Hin. lia.
    + subst k1. split.
      * intros [Heq|Hin].
        -- inversion Heq; subst. right. split; [reflexivity|]. left.
           exists d1. split; [now left | reflexivity].
        -- left. split; [|now right]. apply Hpair in Hin. lia.
      * intros [[Hne [Heq|Hin]]|[-> [(d0 & [Heq|Hin] & ->)|[Hnot ->]]]].
        -- inversion Heq; congruence.
        -- now right.
        -- inversion Heq; subst. now left.
        -- apply Hpair in Hin. lia.
        -- exfalso. apply Hnot. now left.
    + rewrite (IH Hr). split.
      * intros [Heq|[[Hne Hin]|[-> Hk]]].
        -- inversion Heq; subst. left. split; [lia | now left].
        -- left. split; [exact Hne | now right].
        -- right. split; [reflexivity|]. destruct Hk as [(d0 & Hin & ->)|[Hnot ->]].
           ++ left. exists d0. split; [now right | reflexivity].
           ++ right. split; [|reflexivity]. intros [Hk|Hk]; [lia | tauto].
      * intros [[Hne [Heq|Hin]]|[-> [(d0 & [Heq|Hin] & ->)|[Hnot ->]]]].
        -- now left.
        -- right. left. tauto.
        -- inversion Heq; lia.
        -- right. right. split; [reflexivity|]. left. eauto.
        -- right. right. split; [reflexivity|]. right. split; [tauto | reflexivity].
Qed.
End GroupMin.

Lemma groups_of_step seen groups d :
  groups_of seen groups ->
  groups_of (d :: seen) (group_min (to_period_M d) d groups).
Proof.
  intros (Hs & Hmin & Hall). split; [now apply group_min_sorted|]. split.
  - intros k' x Hin. apply group_min_entries in Hin; [|exact Hs].
    destruct Hin as [[Hne Hin]|[-> [(d0 & Hin & ->)|[Hnot ->]]]].
    + destruct (Hmin _ _ Hin) as (Hp & Hseen & Hle).
      split; [exact Hp|]. split; [now right|].
      intros d' [<-|Hd'] Hp'; [congruence | now apply Hle].
    + destruct (Hmin _ _ Hin) as (Hp & Hseen & Hle). split; [|split].
      * destruct (Z.min_spec d0 d) as [[_ ->]|[_ ->]]; [exact Hp | reflexivity].
      * destruct (Z.min_spec d0 d) as [[_ ->]|[_ ->]]; [now right | now left].
      * intros d' [<-|Hd'] Hp'; [lia|]. specialize (Hle _ Hd' Hp'). lia.
    + split; [reflexivity|]. split; [now left|].
      intros d' [<-|Hd'] Hp'; [lia|]. exfalso. apply Hnot.
      rewrite <- Hp'. now apply Hall.
  - intros d' Hd'. apply group_min_keys. destruct Hd' as [<-|Hd']; [now left|].
    right. now apply Hall.
Qed.

Lemma groups_of_fold idx seen groups :
  groups_of seen groups ->
  groups_of (rev idx ++ seen)
    (fold_left (fun groups d => group_min (to_period_M d) d groups) idx groups).
Proof.
  revert seen groups. induction idx as [|d idx IH]; intros seen groups H; simpl.
  - exact H.
  - rewrite <- app_assoc. simpl. apply IH. now apply groups_of_step.
Qed.

Lemma groupby_month_min_groups idx : groups_of idx (groupby_month_min idx).
Proof.
  assert (H0 : groups_of [] []).
  { split; [constructor|]. split; intros; contradiction. }
  pose proof (groups_of_fold idx [] [] H0) as (Hs & Hmin & Hall).
  rewrite app_nil_r in Hmin, Hall.
  split; [exact Hs|]. split.
  - intros k d Hin. destruct (Hmin _ _ Hin) as (Hp & Hseen & Hle).
    split; [exact Hp|]. split; [now apply in_rev|].
    intros d' Hd'. apply Hle. now apply in_rev in Hd'.
  - intros d' Hd'. apply Hall. now apply in_rev in Hd'.
Qed.

(** The contribution days are the dates of the index that are the smallest
    date of their calendar month in the index. *)
Lemma contribution_days_spec idx d :
  In d (contribution_days idx) <->
  In d idx /\ forall d', In d' idx -> to_period_M d' = to_period_M d -> (d <= d')%Z.
Proof.
  destruct (groupby_month_min_groups idx) as (Hs & Hmin & Hall).
  unfold contribution_days. split.
  - intros Hin. apply in_map_iff in Hin. destruct Hin as ([k x] & Heq & Hin).
    simpl in Heq. subst x. destruct (Hmin _ _ Hin) as (Hp & Hseen & Hle).
    split; [exact Hseen|]. intros d' Hd' Hp'. apply Hle; [exact Hd' | congruence].
  - intros [Hin Hle]. specialize (Hall _ Hin).
    apply in_map_iff in Hall. destruct Hall as ([k y] & Hk & Hy). simpl in Hk. subst k.
    destruct (Hmin _ _ Hy) as (Hp & Hseen & Hle').
    assert (y = d).
    { specialize (Hle _ Hseen Hp). specialize (Hle' _ Hin eq_refl). lia. }
    subst y. now apply (in_map snd _ (to_period_M d, d)).
Qed.

Lemma NoDup_map_source {A B : Type} (f : A -> B) (l : list A) :
  NoDup (map f l) -> NoDup l.
Proof.
  induction l as [|x l IH]; simpl; intros H; [constructor|].
  apply NoDup_cons in H. destruct H as [Hnotin Hnd].
  apply NoDup_cons. split; [|now apply IH].
  intros Hin. apply Hnotin. apply list_elem_of_In. apply in_map.
  now apply list_elem_of_In.
Qed.

Lemma StronglySorted_lt_NoDup (l : list Z) : StronglySorted Z.lt l -> NoDup l.
Proof.
  induction 1 as [|x l Hs IH Hall]; [constructor|].
  apply NoDup_cons. split; [|exact IH].
  intros Hin. rewrite Forall_forall in Hall. specialize (Hall _ Hin). lia.
Qed.

Lemma list_filter_sublist {A : Type} (f : A -> bool) (l : list A) :
  sublist (List.filter f l) l.
Proof.
  induction l as [|x l IH]; simpl; [constructor|].
  destruct (f x); [now apply sublist_skip | now apply sublist_cons].
Qed.

Lemma contribution_days_NoDup idx : NoDup (contribution_days idx).
Proof.
  destruct (groupby_month_min_groups idx) as (Hs & Hmin & _).
  unfold contribution_days.
  assert (Hkeys : map fst (groupby_month_min idx) =
                  map to_period_M (map snd (groupby_month_min idx))).
  { rewrite map_map. apply map_ext_in. intros [k d] Hin. simpl.
    symmetry. now apply (Hmin _ _ Hin). }
  apply (NoDup_map_source to_period_M). rewrite <- Hkeys.
  now apply StronglySorted_lt_NoDup.
Qed.

Lemma is_contribution_day_In day cdays :
  is_contribution_day day cdays = true <-> In day cdays.
Proof.
  unfold is_contribution_day. rewrite existsb_exists. split.
  - intros (x & Hin & Heq). apply Z.eqb_eq in Heq. now subst.
  - intros Hin. exists day. split; [exact Hin | apply Z.eqb_refl].
Qed.

Lemma contribution_days_nonempty idx : idx <> [] -> contribution_days idx <> [].
Proof.
  intros Hne Hnil. destruct idx as [|d idx]; [congruence|].
  destruct (groupby_month_min_groups (d :: idx)) as (_ & _ & Hall).
  specialize (Hall d (or_introl eq_refl)).
  unfold contribution_days in Hnil. apply map_eq_nil in Hnil.
  rewrite Hnil in Hall. contradiction.
Qed.

(** On an index without repeated dates, the days on which the loop adds the
    contribution are as many as the contribution days. *)
Lemma contribution_days_encountered idx :
  NoDup idx ->
  length (List.filter (fun d => is_contribution_day d (contribution_days idx)) idx) =
  length (contribution_days idx).
Proof.
  intros Hnd. apply Permutation_length. apply NoDup_Permutation.
  - eapply sublist_NoDup; [exact Hnd | apply list_filter_sublist].
  - apply contribution_days_NoDup.
  - intros d. rewrite !list_elem_of_In, filter_In, is_contribution_day_In.
    split; [tauto|]. intros H. split; [|exact H]. now apply contribution_days_spec in H.
Qed.

(** ** The summary record *)

Lemma run_backtest_Ok close signals c years res :
  run_backtest close signals c years = Ok res ->
  exists curve, run_backtest_curve close signals c years = Ok (res, curve).
Proof.
  unfold run_backtest. intros H. inv_bind H. destruct a as [r curve].
  injection H as <-. now exists curve.
Qed.

Lemma run_backtest_invested close signals c years res :
  run_backtest close signals c years = Ok res ->
  let cdays := contribution_days (index (backtest_window close years)) in
  BacktestResult.invested res = c * inject_Z (Z.of_nat (length cdays)) /\
  BacktestResult.monthly_contribution_count res = length cdays.
Proof.
  intros H cdays. apply run_backtest_Ok in H. destruct H as [curve H].
  apply run_backtest_curve_Ok in H.
  destruct H as (sig & final & lp & fp & cg & _ & _ & _ & _ & _ & _ & _ & _ & ->).
  split; reflexivity.
Qed.

(** C4. The invested amount of a successful run is the contribution amount
    times the number of contribution days of the windowed index; these days
    are, without repetition, the dates that are the first of their calendar
    month in that index, and on an index without repeated dates they are as
    many as the days on which the loop adds the contribution.  The windowed
    index is computed from the dates alone, so two runs over the same dates
    with the same contribution report the same invested amount whatever the
    prices and the signals. *)
Theorem invested_is_contribution_times_days close signals c years res :
  run_backtest close signals c years = Ok res ->
  let idx := index (backtest_window close years) in
  let cdays := contribution_days idx in
  BacktestResult.invested res = c * inject_Z (Z.of_nat (length cdays)) /\
  BacktestResult.monthly_contribution_count res = length cdays /\
  NoDup cdays /\
  (forall d, In d cdays <->
     In d idx /\
     forall d', In d' idx -> to_period_M d' = to_period_M d -> (d <= d')%Z) /\
  (NoDup idx ->
     length (List.filter (fun d => is_contribution_day d cdays) idx) = length cdays) /\
  idx = List.filter
          (fun d => (sub_years (index_max (index close)) years <=? d)%Z) (index close) /\
  forall close' signals' res',
    index close' = index close ->
    run_backtest close' signals' c years = Ok res' ->
    BacktestResult.invested res' = BacktestResult.invested res /\
    BacktestResult.monthly_contribution_count res' =
    BacktestResult.monthly_contribution_count res.
Proof.
  intros H idx cdays.
  destruct (run_backtest_invested _ _ _ _ _ H) as [Hinv Hcnt].
  fold idx in Hinv, Hcnt. fold cdays in Hinv, Hcnt.
  split; [exact Hinv|]. split; [exact Hcnt|].
  split; [apply contribution_days_NoDup|].
  split; [intros d; apply contribution_days_spec|].
  split; [apply contribution_days_encountered|].
  split; [apply backtest_window_index|].
  intros close' signals' res' Hidx H'.
  destruct (run_backtest_invested _ _ _ _ _ H') as [Hinv' Hcnt'].
  rewrite (backtest_window_index close'), Hidx, <- backtest_window_index in Hinv', Hcnt'.
  fold idx in Hinv', Hcnt'. fold cdays in Hinv', Hcnt'.
  split; congruence.
Qed.

Lemma contribution_total_pos (c : Q) (n : nat) :
  0 < c -> (1 <= n)%nat -> 0 < c * inject_Z (Z.of_nat n).
Proof.
  intros Hc Hn. apply Qmult_lt_0_compat; [exact Hc|].
  unfold Qlt. simpl. lia.
Qed.

Lemma compute_cagr_zero final_value invested period_years :
  compute_cagr final_value invested period_years = Ok BacktestResult.Zero ->
  invested <= 0 \/ period_years <= 0.
Proof.
  unfold compute_cagr.
  destruct (Qltb 0 invested) eqn:Hi; [|left; now apply Qltb_ge].
  destruct (Qltb 0 period_years) eqn:Hp; [|right; now apply Qltb_ge].
  simpl. unfold py_div.
  destruct (Qeq_bool invested 0); [discriminate|].
  destruct (Qeq_bool period_years 0); discriminate.
Qed.

(** C10. In a successful run over strictly increasing dates the first date
    of the windowed index is the smallest date of its calendar month in that
    index and the loop treats it as a contribution day; the contribution
    count is at least 1; and when the contribution amount is positive the
    invested amount is positive, so that [compute_cagr] on it returns 0 only
    for a period that is not positive. *)
Theorem first_date_is_contribution_day close signals c years res :
  run_backtest close signals c years = Ok res ->
  StronglySorted Z.lt (index close) ->
  let idx := index (backtest_window close years) in
  (exists d rest,
     idx = d :: rest /\
     (forall d', In d' idx -> to_period_M d' = to_period_M d -> (d <= d')%Z) /\
     is_contribution_day d (contribution_days idx) = true) /\
  (1 <= BacktestResult.monthly_contribution_count res)%nat /\
  (0 < c ->
     0 < BacktestResult.invested res /\
     Qltb 0 (BacktestResult.invested res) = true /\
     forall final_value period_years,
       compute_cagr final_value (BacktestResult.invested res) period_years =
         Ok BacktestResult.Zero ->
       period_years <= 0).
Proof.
  intros H Hsorted idx.
  destruct (run_backtest_invested _ _ _ _ _ H) as [Hinv Hcnt]. fold idx in Hinv, Hcnt.
  apply run_backtest_Ok in H. destruct H as [curve H].
  apply run_backtest_curve_Ok in H.
  destruct H as (sig & final & lp & fp & cg & _ & _ & Hlen & _).
  assert (Hidx : exists d rest, idx = d :: rest).
  { unfold idx, index. destruct (rows (backtest_window close years)) as [|r rs];
      simpl in *; [lia | eauto]. }
  destruct Hidx as (d & rest & Hidx).
  assert (Hfirst : forall d', In d' idx -> to_period_M d' = to_period_M d -> (d <= d')%Z).
  { pose proof (backtest_window_sorted close years Hsorted) as Hs. fold idx in Hs.
    rewrite Hidx in Hs |- *. apply StronglySorted_inv in Hs. destruct Hs as [_ Hall].
    intros d' [<-|Hin] _; [lia|]. rewrite Forall_forall in Hall.
    apply list_elem_of_In in Hin. specialize (Hall _ Hin). lia. }
  assert (Hcount : (1 <= length (contribution_days idx))%nat).
  { pose proof (contribution_days_nonempty idx) as Hne.
    destruct (contribution_days idx); [|simpl; lia].
    exfalso. apply Hne; [rewrite Hidx; discriminate | reflexivity]. }
  split; [|split].
  - exists d, rest. split; [exact Hidx|]. split; [exact Hfirst|].
    apply is_contribution_day_In, contribution_days_spec.
    split; [rewrite Hidx; now left | exact Hfirst].
  - now rewrite Hcnt.
  - intros Hc. assert (Hpos : 0 < BacktestResult.invested res).
    { rewrite Hinv. now apply contribution_total_pos. }
    split; [exact Hpos|]. split; [now apply Qltb_lt|].
    intros fv py Hz. apply compute_cagr_zero in Hz. destruct Hz; [lra | assumption].
Qed.

(** ** Exceptions *)

Lemma raises_only_Ok {A : Type} (P : error -> Prop) (a : A) : raises_only P (Ok a).
Proof. intros e H. discriminate. Qed.

Lemma raises_only_bind {A B : Type} (P : error -> Prop) (m : result A) (k : A -> result B) :
  raises_only P m -> (forall a, m = Ok a -> raises_only P (k a)) ->
  raises_only P (rbind m k).
Proof.
  intros Hm Hk e H. destruct m as [a|e']; simpl in H.
  - now apply (Hk a eq_refl).
  - injection H as <-. now apply Hm.
Qed.

Lemma raises_only_for_each {S R : Type} (P : error -> Prop) (body : S -> R -> result S)
    (acc : S) (l : list R) :
  (forall s r, raises_only P (body s r)) -> raises_only P (for_each body acc l).
Proof.
  intros Hbody. revert acc. induction l as [|r l IH]; intros acc; simpl.
  - apply raises_only_Ok.
  - apply raises_only_bind; [apply Hbody | intros; apply IH].
Qed.

Abbreviation key_error := (fun e : error => e = KeyError).

Lemma series_get_raises {A : Type} (s : list (string * A)) (t : string) :
  raises_only key_error (series_get s t).
Proof.
  induction s as [|[t' v] s IH]; simpl; intros e H.
  - now injection H as <-.
  - destruct (String.eqb t' t); [discriminate | now apply IH].
Qed.

Lemma exit_positions_raises sigrow tradable st :
  raises_only key_error (exit_positions sigrow tradable st).
Proof.
  revert st. induction tradable as [|[t p] rest IH]; intros st; simpl.
  - apply raises_only_Ok.
  - destruct (Qltb 0 (shares st !!! t)); [|apply IH].
    apply raises_only_bind; [apply series_get_raises|].
    intros [|] _; simpl; apply IH.
Qed.

Lemma active_of_raises sigrow tradable :
  raises_only key_error (active_of sigrow tradable).
Proof.
  induction tradable as [|[t p] rest IH]; simpl.
  - apply raises_only_Ok.
  - apply raises_only_bind; [apply series_get_raises|]. intros s _.
    apply raises_only_bind; [exact IH|]. intros act _. apply raises_only_Ok.
Qed.

Lemma contribute_raises c sigrow tradable st :
  raises_only key_error (contribute c sigrow tradable st).
Proof.
  unfold contribute. apply raises_only_bind; [apply active_of_raises|].
  intros [|tp act] _; [apply raises_only_Ok|].
  destruct (Qltb 0 (cash st + c)); apply raises_only_Ok.
Qed.

Lemma day_step_raises cols sigcols c cdays acc r :
  raises_only key_error (day_step cols sigcols c cdays acc r).
Proof.
  unfold day_step, day_trade.
  apply raises_only_bind; [|intros; apply raises_only_Ok].
  apply raises_only_bind; [apply exit_positions_raises|]. intros st1 _.
  destruct (is_contribution_day _ cdays); [apply contribute_raises | apply raises_only_Ok].
Qed.

Lemma simulate_raises px sig c cdays : raises_only key_error (simulate px sig c cdays).
Proof. apply raises_only_for_each. intros; apply day_step_raises. Qed.

Lemma loc_raises {A : Type} (df : DataFrame A) (labels : list date) :
  raises_only key_error (loc df labels).
Proof.
  unfold loc. apply raises_only_bind; [|intros; apply raises_only_Ok].
  induction labels as [|d ls IH]; simpl; [apply raises_only_Ok|].
  destruct (List.find (fun r => (fst r =? d)%Z) (rows df)).
  - apply raises_only_bind; [exact IH | intros; apply raises_only_Ok].
  - now intros e [= <-].
Qed.

(** The guard of the CAGR keeps both divisions away from a zero divisor. *)
Lemma compute_cagr_total final_value invested period_years :
  compute_cagr final_value invested period_years =
  Ok (if Qltb 0 invested && Qltb 0 period_years
      then BacktestResult.PowMinus1 (final_value / invested) (1 / period_years)
      else BacktestResult.Zero).
Proof.
  unfold compute_cagr.
  destruct (Qltb 0 invested) eqn:Hi; [|reflexivity].
  destruct (Qltb 0 period_years) eqn:Hp; [|reflexivity].
  apply Qltb_lt in Hi, Hp. simpl. unfold py_div.
  destruct (Qeq_bool invested 0) eqn:Ei; [apply Qeq_bool_iff in Ei; lra|].
  destruct (Qeq_bool period_years 0) eqn:Ep; [apply Qeq_bool_iff in Ep; lra|].
  reflexivity.
Qed.

Lemma sorted_series_nonempty points : points <> [] -> sorted_series points <> [].
Proof.
  unfold sorted_series. intros Hne.
  assert (Hins : forall d v s, series_insert d v s <> []).
  { intros d v [|[d' v'] s]; simpl; [discriminate|].
    destruct (d <? d')%Z; [discriminate|]. destruct (d =? d')%Z; discriminate. }
  assert (Hfold : forall pts s, s <> [] ->
            fold_left (fun s dv => series_insert (fst dv) (snd dv) s) pts s <> []).
  { induction pts as [|p pts IH]; intros s Hs; simpl; [exact Hs|]. apply IH, Hins. }
  destruct points as [|p pts]; [congruence|]. simpl. now apply Hfold.
Qed.

(** The exceptions of [run_backtest] in the model: its two [ValueError]s
    and the [KeyError] of a label missing from the signal table. *)
Lemma run_backtest_curve_raises close signals c years e :
  run_backtest_curve close signals c years = Err e ->
  (empty close = true /\ e = ValueError "Close prices are empty.") \/
  (empty close = false /\ e = KeyError) \/
  (empty close = false /\
   (exists sig, loc signals (index (backtest_window close years)) = Ok sig) /\
   (length (rows (backtest_window close years)) < 252)%nat /\
   e = ValueError "Not enough data for a meaningful backtest window.").
Proof.
  unfold run_backtest_curve. intros H.
  destruct (empty close) eqn:He; [left; split; congruence|]. right.
  set (px := backtest_window close years) in *.
  destruct (loc signals (index px)) as [sig|e'] eqn:Hloc; cbn [rbind] in H.
  2:{ left. injection H as <-. split; [reflexivity|]. now apply (loc_raises _ _ _ Hloc). }
  destruct (Nat.ltb_spec (length (rows px)) 252) as [Hlt|Hge].
  { right. injection H as <-. eauto. }
  left. split; [reflexivity|].
  destruct (simulate px sig c (contribution_days (index px))) as [final|e'] eqn:Hsim;
    cbn [rbind] in H.
  2:{ injection H as <-. now apply (simulate_raises _ _ _ _ _ Hsim). }
  exfalso.
  assert (Hpts : snd final <> []).
  { apply loc_index in Hloc. destruct Hloc as [Hidx _].
    pose proof (simulate_dates _ _ _ _ _ Hidx Hsim) as Hd.
    intros Hnil. rewrite Hnil in Hd. simpl in Hd. unfold index in Hd.
    destruct (rows px); simpl in *; [lia | discriminate]. }
  apply sorted_series_nonempty in Hpts.
  destruct (sorted_series (snd final)) as [|p0 curve] eqn:Hcurve; [congruence|].
  unfold iloc_last in H.
  destruct (last (p0 :: curve)) as [lp|] eqn:Hlast.
  2:{ apply last_None in Hlast. discriminate. }
  cbn [rbind iloc_first] in H. rewrite compute_cagr_total in H. discriminate.
Qed.

Lemma run_backtest_Err close signals c years e :
  run_backtest close signals c years = Err e <->
  run_backtest_curve close signals c years = Err e.
Proof.
  unfold run_backtest.
  destruct (run_backtest_curve close signals c years); simpl; split; congruence.
Qed.

(** ** Runs that return *)




Section Covered.
Variables (sigrow : list (string * bool)) (tradable : list (string * Q)).
Hypothesis covered : forall t, In t (map fst tradable) -> In t (map fst sigrow).



End Covered.




(** C6. [run_backtest] raises its empty-table error on an empty price table.
    On a non empty one whose window starts inside the [Timestamp] range and
    is covered by the signal table, it raises the insufficient-history
    error exactly when the window has fewer than 252 rows: it does at 251
    rows and does not at 252.  That error is never raised in another
    situation, and a run that raises returns no result. *)
Theorem insufficient_history_boundary close signals c years :
  let px := backtest_window close years in
  let start_date := sub_years (index_max (index close)) years in
  let run := run_backtest close signals c years in
  let not_enough := ValueError "Not enough data for a meaningful backtest window." in
  (empty close = true -> run = Err (ValueError "Close prices are empty.")) /\
  (empty close = false ->
   in_timestamp_range start_date ->
   forall sig, loc signals (index px) = Ok sig ->
     (run = Err not_enough <-> (length (rows px) < 252)%nat) /\
     (length (rows px) = 251%nat -> run = Err not_enough) /\
     (length (rows px) = 252%nat -> run <> Err not_enough)) /\
  (run = Err not_enough ->
   empty close = false /\ (length (rows px) < 252)%nat /\
   exists sig, loc signals (index px) = Ok sig) /\
  (forall e, run = Err e -> forall r, run <> Ok r).
Proof.
  intros px start_date run not_enough.
  assert (Hempty : empty close = true -> run = Err (ValueError "Close prices are empty.")).
  { intros He. unfold run. apply run_backtest_Err.
    unfold run_backtest_curve. now rewrite He. }
  assert (Hshort : empty close = false ->
            forall sig, loc signals (index px) = Ok sig ->
            (length (rows px) < 252)%nat -> run = Err not_enough).
  { intros He sig Hloc Hlt. unfold run. apply run_backtest_Err.
    unfold run_backtest_curve. rewrite He. fold px. rewrite Hloc. cbn [rbind].
    apply Nat.ltb_lt in Hlt. now rewrite Hlt. }
  assert (Hconv : run = Err not_enough ->
            empty close = false /\ (length (rows px) < 252)%nat /\
            exists sig, loc signals (index px) = Ok sig).
  { intros H. apply run_backtest_Err, run_backtest_curve_raises in H.
    destruct H as [[_ H]|[[_ H]|(He & Hsig & Hlt & _)]]; [discriminate..|].
    auto. }
  split; [exact Hempty|]. split; [|split; [exact Hconv|]].
  - intros He _ sig Hloc. split; [|split].
    + split; [intros H; now apply Hconv in H | now apply (Hshort He sig)].
    + intros H251. apply (Hshort He sig Hloc). lia.
    + intros H252 H. apply Hconv in H. lia.
  - intros e H r. rewrite H. discriminate.
Qed.

(** C7. [run_backtest] never raises a division error.  In a successful run
    the final value is the last value of the equity curve and, with the
    period the number of days from the first to the last date of the curve
    divided by 365.25, the CAGR is (final value / invested) ** (1 / period)
    - 1 when invested and the period are both positive, and 0 otherwise. *)
Theorem cagr_formula close signals c years :
  run_backtest close signals c years <> Err ZeroDivisionError /\
  (forall final_value invested period_years,
     compute_cagr final_value invested period_years <> Err ZeroDivisionError) /\
  forall res curve,
    run_backtest_curve close signals c years = Ok (res, curve) ->
    exists first_point last_point,
      iloc_first curve = Ok first_point /\
      iloc_last curve = Ok last_point /\
      BacktestResult.final_value res = snd last_point /\
      let period_years := inject_Z (fst last_point - fst first_point) / (1461 # 4) in
      (0 < BacktestResult.invested res -> 0 < period_years ->
         BacktestResult.cagr res =
         BacktestResult.PowMinus1
           (BacktestResult.final_value res / BacktestResult.invested res)
           (1 / period_years)) /\
      (BacktestResult.invested res <= 0 \/ period_years <= 0 ->
         BacktestResult.cagr res = BacktestResult.Zero).
Proof.
  split; [|split].
  - intros H. apply run_backtest_Err, run_backtest_curve_raises in H.
    destruct H as [[_ H]|[[_ H]|(_ & _ & _ & H)]]; discriminate.
  - intros fv inv py. now rewrite compute_cagr_total.
  - intros res curve H. apply run_backtest_curve_Ok in H.
    destruct H as (sig & final & lp & fp & cg & _ & _ & _ & _ & _ & Hl & Hf & Hc & ->).
    exists fp, lp. split; [exact Hf|]. split; [exact Hl|]. split; [reflexivity|].
    cbn [BacktestResult.invested BacktestResult.final_value BacktestResult.cagr].
    rewrite compute_cagr_total in Hc. injection Hc as <-.
    unfold period_years_of.
    set (inv := c * inject_Z _). set (py := inject_Z _ / _).
    split.
    + intros Hi Hp. apply Qltb_lt in Hi, Hp. now rewrite Hi, Hp.
    + intros [Hi|Hp].
      * apply Qltb_ge in Hi. now rewrite Hi.
      * apply Qltb_ge in Hp. rewrite Hp. now rewrite andb_false_r.
Qed.

(** ** The market filter *)

Lemma has_date_series_loc market_signal day :
  has_date market_signal day = true -> exists m, series_loc market_signal day = Ok m.
Proof.
  unfold has_date. induction market_signal as [|[d b] s IH]; simpl; [discriminate|].
  destruct (d =? day)%Z; simpl; [eauto | exact IH].
Qed.

Lemma mask_rows_spec market_signal rs :
  Forall (fun r => has_date market_signal (fst r) = true) rs ->
  exists out,
    mask_rows market_signal rs = Ok out /\
    Forall2 (fun r_in r_out =>
               fst r_out = fst r_in /\
               exists m, series_loc market_signal (fst r_in) = Ok m /\
                         snd r_out = if m then snd r_in
                                     else map (fun _ => false) (snd r_in))
            rs out.
Proof.
  induction 1 as [|[day cells] rs Hr _ IH]; simpl.
  - exists []. split; [reflexivity | constructor].
  - destruct (has_date_series_loc _ _ Hr) as [m Hm]. destruct IH as (out & Hout & Hall).
    simpl in Hm. rewrite Hm, Hout. simpl. eexists. split; [reflexivity|].
    constructor; [|exact Hall]. simpl. split; [reflexivity|].
    exists m. split; [exact Hm|]. now destruct m.
Qed.

(** C9. The market filter succeeds.  Its output has the columns of the
    input and, in order, the input rows whose date is in the proxy's signal
    series.  On such a row every cell is false when the proxy's signal of
    that date is false, the row is the input row when it is true, and a cell
    that is true in the output is true in the input. *)
Theorem market_filter_is_and_mask market_signal stock_signals :
  let aligned :=
    List.filter (fun r => has_date market_signal (fst r)) (rows stock_signals) in
  exists out,
    apply_market_filter market_signal stock_signals = Ok out /\
    columns out = columns stock_signals /\
    index out = List.filter (has_date market_signal) (index stock_signals) /\
    length (rows out) = length aligned /\
    forall i day cells,
      aligned !! i = Some (day, cells) ->
      exists m cells',
        series_loc market_signal day = Ok m /\
        rows out !! i = Some (day, cells') /\
        length cells' = length cells /\
        (m = false -> forall j b, cells' !! j = Some b -> b = false) /\
        (m = true -> cells' = cells) /\
        (forall j, cells' !! j = Some true -> cells !! j = Some true).
Proof.
  intros aligned.
  assert (Hall : Forall (fun r => has_date market_signal (fst r) = true) aligned).
  { apply Forall_forall. intros r Hr. apply list_elem_of_In, filter_In in Hr. tauto. }
  destruct (mask_rows_spec _ _ Hall) as (out & Hout & Hrel).
  exists (mkFrame (columns stock_signals) out).
  split; [|split; [reflexivity|split; [|split]]].
  - unfold apply_market_filter. simpl. fold aligned. now rewrite Hout.
  - unfold index. simpl. rewrite <- filter_rows_index. fold aligned.
    clear -Hrel. induction Hrel as [|x y l l' [Hd _] _ IH]; simpl; congruence.
  - simpl. symmetry. apply (Forall2_length _ _ _ Hrel).
  - intros i day cells Hi. simpl.
    destruct (Forall2_lookup_l _ _ _ _ _ Hrel Hi) as ([day' cells'] & Ho & Hd & m & Hm & Hc).
    simpl in Hd, Hm, Hc. subst day'. exists m, cells'.
    split; [exact Hm|]. split; [exact Ho|]. subst cells'.
    split; [destruct m; [reflexivity | apply length_map]|].
    split; [|split].
    + intros -> j b Hj. apply list_lookup_fmap_Some in Hj.
      destruct Hj as (x & Hb & _). exact Hb.
    + now intros ->.
    + intros j Hj. destruct m; [exact Hj|].
      apply list_lookup_fmap_Some in Hj. destruct Hj as (x & Hb & _). discriminate.
Qed.

(** ** The signal series *)

Lemma take_drop_seq {A : Type} (d : A) (n a : nat) (s : list A) :
  (a + n <= length s)%nat ->
  take n (drop a s) = map (fun k => nth k s d) (seq a n).
Proof.
  revert a. induction n as [|n IH]; intros a Hlen; simpl; [reflexivity|].
  destruct (lookup_lt_is_Some_2 s a) as [x Hx]; [lia|].
  rewrite (drop_S _ _ _ Hx). simpl. rewrite IH by lia.
  f_equal. rewrite nth_lookup, Hx. reflexivity.
Qed.

Lemma window_full {A : Type} (d : A) (w : nat) (s : list A) (i : nat) :
  (i < length s)%nat -> (w <= S i)%nat ->
  window w s i = map (fun k => nth k s d) (seq (S i - w) w).
Proof.
  intros Hi Hw. unfold window.
  rewrite skipn_firstn_comm.
  replace (S i - (S i - w))%nat with w by lia. apply take_drop_seq. lia.
Qed.

Lemma window_short {A : Type} (w : nat) (s : list A) (i : nat) :
  (i < length s)%nat -> (S i < w)%nat -> length (window w s i) = S i.
Proof.
  intros Hi Hw. unfold window. replace (S i - w)%nat with 0%nat by lia.
  rewrite drop_0, length_take. lia.
Qed.

(** The rolling mean of the code is the moving average of the
    specification. *)
Lemma window_mean_spec (w : nat) (s : list (option Q)) (i : nat) :
  (i < length s)%nat -> window_mean w (window w s i) = spec_sma w s i.
Proof.
  intros Hi. unfold window_mean, spec_sma.
  destruct (Nat.leb_spec w (S i)) as [Hw|Hw].
  - rewrite (window_full None) by assumption.
    rewrite length_map, length_seq, Nat.eqb_refl. reflexivity.
  - rewrite window_short by assumption.
    destruct (Nat.eqb_spec (S i) w); [lia | reflexivity].
Qed.

Lemma rolling_mean_lookup (w : nat) (s : list (option Q)) (i : nat) :
  (i < length s)%nat -> rolling_mean w s !! i = Some (spec_sma w s i).
Proof.
  intros Hi. unfold rolling_mean.
  change (map ?f ?l) with (f <$> l). rewrite list_lookup_fmap, lookup_seq_lt by assumption.
  simpl. now rewrite window_mean_spec.
Qed.

Lemma rolling_mean_length (w : nat) (s : list (option Q)) :
  length (rolling_mean w s) = length s.
Proof. unfold rolling_mean. now rewrite length_map, length_seq. Qed.

Lemma shift_lookup (k : nat) (s : list (option Q)) (i : nat) :
  (i < length s)%nat ->
  shift k s !! i = if (i <? k)%nat then Some None else s !! (i - k)%nat.
Proof.
  intros Hi. unfold shift. rewrite lookup_take_lt by assumption.
  destruct (Nat.ltb_spec i k) as [Hk|Hk].
  - rewrite lookup_app_l by (rewrite length_replicate; exact Hk).
    now apply lookup_replicate_2.
  - rewrite lookup_app_r by (rewrite length_replicate; exact Hk).
    now rewrite length_replicate.
Qed.

Lemma shift_length (k : nat) (s : list (option Q)) : length (shift k s) = length s.
Proof.
  unfold shift. rewrite length_take, length_app, length_replicate. lia.
Qed.

(** The signal of day [i], cell by cell. *)
Lemma signal_series_lookup (close : list (option Q)) (i : nat) :
  (i < length close)%nat ->
  signal_series close !! i =
  Some (cell_gt (nth i close None) (spec_sma 200 close i) &&
        cell_gt (spec_sma 200 close i)
                (if (i <? 20)%nat then None else spec_sma 200 close (i - 20))).
Proof.
  intros Hi. unfold signal_series.
  assert (Hc : close !! i = Some (nth i close None)).
  { rewrite nth_lookup. destruct (lookup_lt_is_Some_2 close i Hi) as [x ->]. reflexivity. }
  assert (Hs : shift 20 (rolling_mean 200 close) !! i =
               Some (if (i <? 20)%nat then None else spec_sma 200 close (i - 20))).
  { rewrite shift_lookup by (rewrite rolling_mean_length; exact Hi).
    destruct (Nat.ltb_spec i 20); [reflexivity|].
    apply rolling_mean_lookup. lia. }
  rewrite !lookup_zip_with, Hc, (rolling_mean_lookup 200 close i Hi), Hs.
  reflexivity.
Qed.

Lemma signal_series_length (close : list (option Q)) :
  length (signal_series close) = length close.
Proof.
  unfold signal_series.
  rewrite !length_zip_with, shift_length, !rolling_mean_length. lia.
Qed.

(** Before the first full window there is no moving average. *)
Lemma spec_sma_warmup (n : nat) (close : list (option Q)) (i : nat) :
  (S i < n)%nat -> spec_sma n close i = None.
Proof.
  intros H. unfold spec_sma. destruct (Nat.leb_spec n (S i)); [lia | reflexivity].
Qed.

Lemma cell_gt_true (a b : option Q) :
  cell_gt a b = true <-> exists x y, a = Some x /\ b = Some y /\ y < x.
Proof.
  unfold cell_gt. destruct a as [x|], b as [y|]; split;
    try discriminate; try (intros (x' & y' & H1 & H2 & _); discriminate).
  - intros H. apply Qltb_lt in H. eauto.
  - intros (x' & y' & [= <-] & [= <-] & H). now apply Qltb_lt.
Qed.

(** C5. For every row and column of the price table, the cell of the signal
    table is true exactly when the close price of that day is above the
    200-day moving average of that day and this average is above the
    200-day moving average of 20 trading days earlier, all three being
    defined; on the first 199 rows, where no 200-day average exists yet, the
    cell is false. *)
Theorem build_signals_spec close i j day prices :
  rows close !! i = Some (day, prices) ->
  (j < length (columns close))%nat ->
  let series := column close j None in
  exists cells b,
    rows (build_signals close) !! i = Some (day, cells) /\
    cells !! j = Some b /\
    (b = true <->
     exists c m m20,
       nth j prices None = Some c /\
       spec_sma 200 series i = Some m /\
       (20 <= i)%nat /\
       spec_sma 200 series (i - 20) = Some m20 /\
       m < c /\ m20 < m) /\
    ((i < 199)%nat -> b = false).
Proof.
  intros Hrow Hj series.
  assert (Hi : (i < length series)%nat).
  { unfold series, column. rewrite length_map. now apply lookup_lt_Some in Hrow. }
  assert (Hnth : nth i series None = nth j prices None).
  { unfold series, column. rewrite nth_lookup.
    change (map ?f ?l) with (f <$> l). now rewrite list_lookup_fmap, Hrow. }
  pose proof (signal_series_lookup series i Hi) as Hsig. rewrite Hnth in Hsig.
  match type of Hsig with _ = Some ?x => set (b := x) in * end.
  eexists _, b. split; [|split; [|split]].
  - unfold build_signals. cbn [rows]. rewrite list_lookup_imap, Hrow. reflexivity.
  - cbn [snd]. change (map ?f ?l) with (f <$> l).
    rewrite !list_lookup_fmap, lookup_seq_lt by assumption. cbn [fmap option_fmap option_map].
    change (0 + j)%nat with j. fold series. rewrite nth_lookup, Hsig. reflexivity.
  - unfold b. rewrite andb_true_iff, !cell_gt_true. split.
    + intros [(c & m & Hc & Hm & Hlt) (m' & m20 & Hm' & Hm20 & Hlt')].
      rewrite Hm in Hm'. injection Hm' as <-.
      destruct (Nat.ltb_spec i 20); [discriminate|].
      exists c, m, m20. auto 10.
    + intros (c & m & m20 & Hc & Hm & H20 & Hm20 & Hlt & Hlt').
      split; [now exists c, m|]. exists m, m20.
      destruct (Nat.ltb_spec i 20); [lia | auto].
  - intros Hwarm. unfold b. rewrite spec_sma_warmup by lia.
    now destruct (nth j prices None).
Qed.

(** ** The drawdown of a curve of non negative values *)








(** ** A long-only portfolio *)

Lemma py_sum_from_le (l : list Q) (a : Q) :
  Forall (fun x => 0 <= x) l -> a <= fold_left Qplus l a.
Proof.
  intros H. revert a. induction H as [|x l Hx _ IH]; intros a; simpl; [lra|].
  specialize (IH (a + x)). lra.
Qed.

Lemma py_sum_from_lt (l : list Q) (a : Q) :
  Forall (fun x => 0 <= x) l -> Exists (fun x => 0 < x) l -> a < fold_left Qplus l a.
Proof.
  intros H. revert a. induction H as [|x l Hx Hl IH]; intros a Hex; simpl.
  - inversion Hex.
  - inversion Hex; subst.
    + pose proof (py_sum_from_le l (a + x) Hl). lra.
    + specialize (IH (a + x) H0). lra.
Qed.

Lemma init_portfolio_long_only cols : long_only (init_portfolio cols).
Proof.
  split; simpl; [lra|]. intros t. rewrite lookup_total_alt.
  destruct (_ !! t) as [x|] eqn:Hx; simpl; [|lra].
  apply elem_of_list_to_map_2, list_elem_of_In, in_map_iff in Hx.
  destruct Hx as (t' & [= _ <-] & _). lra.
Qed.

Lemma exit_positions_long_only sigrow tradable st st1 :
  Forall (fun tp => 0 < snd tp) tradable ->
  long_only st -> exit_positions sigrow tradable st = Ok st1 -> long_only st1.
Proof.
  intros Hpos. revert st. induction Hpos as [|[t p] rest Hp _ IH]; intros st Hst H;
    simpl in H.
  - now injection H as <-.
  - simpl in Hp. destruct (Qltb 0 (shares st !!! t)) eqn:Hheld; [|now apply (IH st)].
    inv_bind H. destruct a; simpl in H; [now apply (IH st)|].
    apply Qltb_lt in Hheld. destruct Hst as [Hc Hs].
    eapply IH; [|exact H]. split; simpl.
    + assert (0 <= shares st !!! t * p) by (apply Qmult_le_0_compat; lra). lra.
    + intros t'. destruct (decide (t = t')) as [->|Hne].
      * rewrite lookup_total_insert_eq. lra.
      * rewrite lookup_total_insert_ne by exact Hne. apply Hs.
Qed.

(** Buying never lowers a share count. *)
Lemma buy_mono per_name active (sh : gmap string Q) t :
  0 < per_name -> Forall (fun tp => 0 < snd tp) active ->
  sh !!! t <= buy per_name active sh !!! t.
Proof.
  intros Hper Hact. unfold buy. revert sh.
  induction Hact as [|[t' p] rest Hp _ IH]; intros sh; simpl; [lra|].
  simpl in Hp. assert (Hgain : 0 < per_name / p) by (apply Qlt_shift_div_l; lra).
  eapply Qle_trans; [|apply IH].
  destruct (decide (t' = t)) as [->|Hne].
  - rewrite lookup_total_insert_eq. lra.
  - rewrite lookup_total_insert_ne by exact Hne. lra.
Qed.

Lemma buy_pos per_name active (sh : gmap string Q) t p :
  0 < per_name -> Forall (fun tp => 0 < snd tp) active ->
  0 <= sh !!! t -> In (t, p) active ->
  0 < buy per_name active sh !!! t.
Proof.
  intros Hper Hact. revert sh.
  induction Hact as [|[t' p'] rest Hp Hrest IH]; intros sh Hsh Hin; [contradiction|].
  simpl in Hp. assert (Hgain : 0 < per_name / p') by (apply Qlt_shift_div_l; lra).
  change (buy per_name ((t', p') :: rest) sh)
    with (buy per_name rest (<[t' := sh !!! t' + per_name / p']> sh)).
  destruct Hin as [Heq|Hin].
  - injection Heq as -> ->.
    eapply Qlt_le_trans; [|apply buy_mono; assumption].
    rewrite lookup_total_insert_eq. lra.
  - apply IH; [|exact Hin]. destruct (decide (t' = t)) as [->|Hne].
    + rewrite lookup_total_insert_eq. lra.
    + now rewrite lookup_total_insert_ne.
Qed.

Lemma active_of_prices sigrow tradable active :
  active_of sigrow tradable = Ok active ->
  Forall (fun tp => 0 < snd tp) tradable -> Forall (fun tp => 0 < snd tp) active.
Proof.
  intros H Hpos. apply active_of_spec in H. destruct H as [_ Hin].
  rewrite Forall_forall in Hpos |- *. intros [t p] Htp. apply Hpos.
  apply list_elem_of_In. apply list_elem_of_In, Hin in Htp. tauto.
Qed.

Lemma per_name_pos (cash1 : Q) (n : nat) :
  0 < cash1 -> (1 <= n)%nat -> 0 < cash1 / inject_Z (Z.of_nat n).
Proof.
  intros Hc Hn. apply Qlt_shift_div_l; [|lra]. unfold Qlt. simpl. lia.
Qed.


(** A non negative contribution keeps the portfolio long-only, and a positive
    one makes the equity of the day positive. *)
Lemma contribute_long_only sigrow c tradable st st2 :
  0 <= c -> Forall (fun tp => 0 < snd tp) tradable -> long_only st ->
  contribute c sigrow tradable st = Ok st2 ->
  long_only st2 /\ (0 < c -> 0 < equity st2 tradable).
Proof.
  intros Hc Hpos [Hcash Hsh] H. unfold contribute in H. inv_bind H.
  pose proof (active_of_prices _ _ _ Ha Hpos) as Hapos.
  assert (Hkeep : forall st', cash st' = cash st + c -> shares st' = shares st ->
            long_only st' /\ (0 < c -> 0 < equity st' tradable)).
  { intros st' Hc' Hs'. assert (Hlo : long_only st').
    { split; [rewrite Hc'; lra | intros t; rewrite Hs'; apply Hsh]. }
    split; [exact Hlo|]. intros Hcpos. unfold equity, py_sum. rewrite Hc'.
    assert (Hterms : Forall (fun x => 0 <= x)
                       (map (fun tp => shares st' !!! fst tp * snd tp) tradable)).
    { clear -Hlo Hpos. destruct Hlo as [_ Hs].
      induction Hpos as [|[t p] rest Hp _ IH]; simpl; constructor; [|exact IH].
      simpl in Hp. apply Qmult_le_0_compat; [apply Hs | lra]. }
    pose proof (py_sum_from_le _ 0 Hterms). lra. }
  destruct a as [|[t p] act]; [injection H as <-; now apply Hkeep|].
  destruct (Qltb 0 (cash st + c)) eqn:Hcash1; [|injection H as <-; now apply Hkeep].
  apply Qltb_lt in Hcash1. injection H as <-.
  set (per := (cash st + c) / inject_Z (Z.of_nat (length ((t, p) :: act)))).
  assert (Hper : 0 < per) by (apply per_name_pos; [exact Hcash1 | simpl; lia]).
  assert (Hlo : long_only (mkPortfolio 0 (buy per ((t, p) :: act) (shares st)))).
  { split; cbn [cash shares]; [lra|]. intros t'.
    eapply Qle_trans; [apply Hsh | now apply buy_mono]. }
  split; [exact Hlo|]. intros _.
  unfold equity, py_sum. cbn [cash shares].
  set (sh2 := buy per ((t, p) :: act) (shares st)) in *.
  assert (Hterms : Forall (fun x => 0 <= x)
                     (map (fun tp => sh2 !!! fst tp * snd tp) tradable)).
  { destruct Hlo as [_ Hs]. cbn [shares] in Hs. clear -Hs Hpos.
    induction Hpos as [|[t' p'] rest Hp _ IH]; simpl; constructor; [|exact IH].
    simpl in Hp. apply Qmult_le_0_compat; [apply Hs | lra]. }
  assert (Hterm : Exists (fun x => 0 < x)
                    (map (fun tp => sh2 !!! fst tp * snd tp) tradable)).
  { apply Exists_exists. exists (sh2 !!! t * p). split.
    - apply list_elem_of_In. apply (in_map (fun tp => sh2 !!! fst tp * snd tp) _ (t, p)).
      apply (active_of_spec _ _ _ Ha). now left.
    - apply Qmult_lt_0_compat.
      + unfold sh2. apply (buy_pos per _ _ t p); auto. now left.
      + apply Forall_cons in Hapos. now destruct Hapos. }
  pose proof (py_sum_from_lt _ 0 Hterms Hterm) as Hsum.
  apply (Qlt_le_trans _ _ _ Hsum). rewrite Qplus_0_l. apply Qle_refl.
Qed.

Lemma day_trade_long_only c cdays day sigrow tradable st st2 :
  0 <= c -> Forall (fun tp => 0 < snd tp) tradable -> long_only st ->
  day_trade c cdays day sigrow tradable st = Ok st2 ->
  long_only st2 /\
  (0 < c -> is_contribution_day day cdays = true -> 0 < equity st2 tradable).
Proof.
  intros Hc Hpos Hst H. unfold day_trade in H. inv_bind H.
  pose proof (exit_positions_long_only _ _ _ _ Hpos Hst Ha) as Hst1.
  destruct (is_contribution_day day cdays).
  - destruct (contribute_long_only _ _ _ _ _ Hc Hpos Hst1 H) as [Hlo Heq].
    split; [exact Hlo | intros Hcpos _; now apply Heq].
  - injection H as <-. split; [exact Hst1 | discriminate].
Qed.

Lemma tradable_prices_pos (cols : list string) (cells : list (option Q)) :
  (forall p, In (Some p) cells -> 0 < p) ->
  Forall (fun tp => 0 < snd tp) (dropna (row_series cols cells)).
Proof.
  intros H. apply Forall_forall. intros [t p] Htp. simpl.
  apply list_elem_of_In, dropna_price in Htp. apply H.
  unfold row_series in Htp. now apply in_combine_r in Htp.
Qed.


(** ** Entries of the sorted series *)

Lemma series_insert_In d v s x :
  In x (series_insert d v s) -> x = (d, v) \/ In x s.
Proof.
  induction s as [|[d' v'] s IH]; simpl.
  - intros [H|[]]. now left.
  - destruct (d <? d')%Z; [simpl; intuition|].
    destruct (d =? d')%Z; simpl; [intuition|].
    intros [H|H]; [now right; left|]. apply IH in H. tauto.
Qed.

Lemma series_insert_dates d v s d0 :
  In d0 (map fst (series_insert d v s)) <-> d0 = d \/ In d0 (map fst s).
Proof.
  induction s as [|[d' v'] s IH]; simpl; [intuition|].
  destruct (d <? d')%Z; [simpl; intuition|].
  destruct (Z.eqb_spec d d'); simpl; [subst; intuition|].
  rewrite IH. intuition.
Qed.

Lemma sorted_series_In points x : In x (sorted_series points) -> In x points.
Proof.
  unfold sorted_series.
  assert (H : forall pts s, In x (fold_left
                (fun s dv => series_insert (fst dv) (snd dv) s) pts s) ->
              In x s \/ In x pts).
  { induction pts as [|[d v] pts IH]; intros s Hin; simpl in *; [tauto|].
    apply IH in Hin. destruct Hin as [Hin|Hin]; [|tauto].
    apply series_insert_In in Hin. destruct Hin as [->|Hin]; tauto. }
  intros Hin. apply H in Hin. simpl in Hin. tauto.
Qed.

Lemma sorted_series_dates points d :
  In d (map fst points) -> In d (map fst (sorted_series points)).
Proof.
  unfold sorted_series.
  assert (H : forall pts s, In d (map fst s) \/ In d (map fst pts) ->
              In d (map fst (fold_left
                (fun s dv => series_insert (fst dv) (snd dv) s) pts s))).
  { induction pts as [|[d' v] pts IH]; intros s Hin; simpl in *; [tauto|].
    apply IH. rewrite series_insert_dates. simpl. destruct Hin as [Hin|[Hin|Hin]]; auto. }
  intros Hin. apply H. now right.
Qed.



(** ** The equity curve of a run *)

(** C1. Every value the equity curve of a run holds for a date is the cash
    balance plus the sum, over the tickers with a price that day, of share
    count times price, cash and share counts being those reached at the end
    of a simulated day of that date, and every simulated date has a value in
    the curve.  On a price table with strictly increasing dates the curve
    holds, in order, one such value for each simulated day. *)
Theorem equity_curve_reconciles close signals c years res curve :
  run_backtest_curve close signals c years = Ok (res, curve) ->
  let px := backtest_window close years in
  let cdays := contribution_days (index px) in
  let value st cells :=
    cash st + py_sum (map (fun tp => (shares st !!! fst tp) * snd tp)
                          (dropna (row_series (columns px) cells))) in
  exists sig,
    loc signals (index px) = Ok sig /\
    (forall day v, In (day, v) curve ->
       exists i cells st pts,
         rows px !! i = Some (day, cells) /\
         simulate_days (S i) px sig c cdays = Ok (st, pts) /\
         v = value st cells) /\
    (forall day, In day (index px) -> exists v, In (day, v) curve) /\
    (StronglySorted Z.lt (index close) ->
     forall i day cells, rows px !! i = Some (day, cells) ->
       exists st pts,
         simulate_days (S i) px sig c cdays = Ok (st, pts) /\
         curve !! i = Some (day, value st cells)).
Proof.
  intros Hrun px cdays value.
  apply run_backtest_curve_Ok in Hrun.
  destruct Hrun as (sig & final & lp & fp & cg & _ & Hloc & _ & Hsim & Hcurve & _).
  fold px in Hloc, Hsim. fold cdays in Hsim.
  destruct (loc_index _ _ _ Hloc) as [Hidx _].
  assert (Hdates := simulate_dates _ _ _ _ _ Hidx Hsim).
  assert (Hpoint : forall i day cells, rows px !! i = Some (day, cells) ->
            exists st pts,
              simulate_days (S i) px sig c cdays = Ok (st, pts) /\
              snd final !! i = Some (day, value st cells)).
  { intros i day cells Hrow.
    destruct (combine_aligned_lookup (rows px) (rows sig) i _ Hidx Hrow)
      as (y & _ & _ & Hc).
    unfold simulate in Hsim.
    destruct (loop_point_at _ _ _ _ (init_portfolio (columns px), []) _ _ i _
                eq_refl Hsim Hc) as (mid & Hmid & Hpt).
    exists (fst mid), (snd mid). split; [|exact Hpt].
    unfold simulate_days. rewrite Hmid. now destruct mid. }
  exists sig. split; [exact Hloc|]. split; [|split].
  - intros day v Hin. rewrite Hcurve in Hin. apply sorted_series_In in Hin.
    apply list_elem_of_In, list_elem_of_lookup in Hin. destruct Hin as [i Hi].
    assert (Hlt : (i < length (rows px))%nat).
    { apply lookup_lt_Some in Hi.
      rewrite <- (length_map fst (snd final)), Hdates in Hi.
      unfold index in Hi. now rewrite length_map in Hi. }
    destruct (lookup_lt_is_Some_2 _ _ Hlt) as [[day' cells] Hrow].
    destruct (Hpoint _ _ _ Hrow) as (st & pts & Hst & Hpt).
    rewrite Hi in Hpt. injection Hpt as <- ->.
    now exists i, cells, st, pts.
  - intros day Hday. rewrite <- Hdates in Hday. apply sorted_series_dates in Hday.
    rewrite <- Hcurve in Hday. apply in_map_iff in Hday.
    destruct Hday as ([d v] & Heq & Hin). simpl in Heq. subst d. now exists v.
  - intros Hsorted i day cells Hrow.
    rewrite sorted_series_increasing in Hcurve
      by (rewrite Hdates; now apply backtest_window_sorted).
    subst curve. now apply Hpoint.
Qed.

(** ** The properties on the example tables *)

Lemma ex_close_sorted : StronglySorted Z.lt (index (ex_close 252)).
Proof. apply (bool_decide_unpack _). vm_compute. exact I. Defined.

Lemma ex_close_columns : NoDup (columns (ex_close 252)).
Proof. apply (bool_decide_unpack _). vm_compute. exact I. Defined.

Lemma ex_close_prices day cells p :
  In (day, cells) (rows (ex_close 252)) -> In (Some p) cells -> 0 < p.
Proof.
  unfold ex_close, table_of. cbn [rows]. intros Hrow Hp.
  apply in_map_iff in Hrow. destruct Hrow as (i & [= _ <-] & _).
  destruct Hp as [[= <-]|[Hp|[]]].
  - assert (0 <= inject_Z (Z.of_nat i)) by (unfold Qle; simpl; lia). lra.
  - destruct (i <? 10)%nat; [discriminate|]. injection Hp as <-. lra.
Defined.

(** The example run, at its 41st day. *)
Lemma equity_curve_reconciles_witness :
  exists res curve sig st pts,
    run_backtest_curve (ex_close 252) (ex_signals 252) 200 5 = Ok (res, curve) /\
    StronglySorted Z.lt (index (ex_close 252)) /\
    loc (ex_signals 252) (index ex_px) = Ok sig /\
    simulate_days 41 ex_px sig 200 ex_cdays = Ok (st, pts) /\
    curve !! 40%nat =
      Some (19763%Z,
            cash st + py_sum (map (fun tp => (shares st !!! fst tp) * snd tp)
                                  [("AAPL"%string, 140); ("MSFT"%string, 50)])).
Proof.
  destruct (run_backtest_curve (ex_close 252) (ex_signals 252) 200 5)
    as [[res curve]|e] eqn:E; [|vm_compute in E; discriminate].
  destruct (equity_curve_reconciles _ _ _ _ res curve E) as (sig & Hloc & _ & _ & Hpos).
  destruct (Hpos ex_close_sorted 40%nat 19763%Z [Some 140; Some 50])
    as (st & pts & Hst & Hpt); [vm_compute; reflexivity|].
  exists res, curve, sig, st, pts.
  split; [reflexivity|]. split; [exact ex_close_sorted|].
  split; [exact Hloc|]. split; [exact Hst | exact Hpt].
Defined.

(** The claim C2 as it stands: with a contribution of -100 the first day of
    the example run is a contribution day with an active ticker, and the
    cash after it is -100, not 0. *)
Lemma contribution_day_cash_not_zero :
  (exists res, run_backtest (ex_close 252) (ex_signals 252) (-100) 5 = Ok res) /\
  rows ex_px !! 0%nat = Some (19723%Z, [Some 100; None]) /\
  rows (ex_signals 252) !! 0%nat = Some (19723%Z, [true; true]) /\
  is_contribution_day 19723%Z ex_cdays = true /\
  active_of (row_series (columns (ex_signals 252)) [true; true])
            (dropna (row_series (columns ex_px) [Some 100; None]))
    = Ok [("AAPL"%string, 100)] /\
  cash_after 1 ex_px (ex_signals 252) (-100) ex_cdays = Ok (-100) /\
  ~ (-100 == 0).
Proof.
  split; [eexists; vm_compute; reflexivity|].
  repeat split; try (vm_compute; reflexivity).
  intros H. vm_compute in H. discriminate.
Qed.

(** The example run on 2024-02-01, a contribution day with both tickers
    active. *)
Lemma contribution_step_allocates_witness :
  exists res curve sig st1 st2 active,
    run_backtest_curve (ex_close 252) (ex_signals 252) 200 5 = Ok (res, curve) /\
    NoDup (columns (ex_close 252)) /\
    rows ex_px !! 31%nat = Some (19754%Z, [Some 131; Some 50]) /\
    is_contribution_day 19754%Z ex_cdays = true /\
    loc (ex_signals 252) (index ex_px) = Ok sig /\
    portfolio_after 32 ex_px sig 200 ex_cdays = Ok st2 /\
    In ("AAPL"%string, 131) active /\
    0 < cash st1 + 200 /\
    cash st2 = 0 /\
    forall t p, In (t, p) active ->
      shares st2 !!! t =
      shares st1 !!! t + (cash st1 + 200) / inject_Z (Z.of_nat (length active)) / p.
Proof.
  destruct (run_backtest_curve (ex_close 252) (ex_signals 252) 200 5)
    as [[res curve]|e] eqn:E; [|vm_compute in E; discriminate].
  destruct (contribution_step_allocates _ _ _ _ res curve E ex_close_columns
              31%nat 19754%Z [Some 131; Some 50])
    as (sig & sigcells & st0 & st1 & st2 & active
        & Hloc & Hsig & H0 & H1 & H2 & _ & Hact & Hbuy & _);
    [vm_compute; reflexivity | vm_compute; reflexivity |].
  pose proof Hloc as Hloc'. unfold loc in Hloc'. vm_compute in Hloc'.
  injection Hloc' as <-.
  vm_compute in Hsig. injection Hsig as <-.
  assert (Hin : In ("AAPL"%string, 131) active).
  { apply Hact. split; [now left | reflexivity]. }
  assert (Hpos : 0 < cash st1 + 200).
  { vm_compute in H0. injection H0 as <-.
    vm_compute in H1. injection H1 as <-. reflexivity. }
  assert (Hne : active <> []) by (intros ->; contradiction).
  destruct (Hbuy Hne Hpos) as (Hc & Hg & _).
  eexists res, curve, _, st1, st2, active.
  split; [reflexivity|]. split; [exact ex_close_columns|].
  split; [vm_compute; reflexivity|]. split; [vm_compute; reflexivity|].
  split; [exact Hloc|]. split; [exact H2|]. split; [exact Hin|].
  split; [exact Hpos|]. split; [exact Hc | exact Hg].
Defined.

(** The example run on the day the first signal turns off. *)
Lemma exits_precede_contribution_witness :
  exists res curve sig st0 st1 st2,
    run_backtest_curve (ex_close 252) (ex_signals 252) 200 5 = Ok (res, curve) /\
    NoDup (columns (ex_close 252)) /\
    rows ex_px !! 40%nat = Some (19763%Z, [Some 140; Some 50]) /\
    loc (ex_signals 252) (index ex_px) = Ok sig /\
    portfolio_after 40 ex_px sig 200 ex_cdays = Ok st0 /\
    portfolio_after 41 ex_px sig 200 ex_cdays = Ok st2 /\
    0 < shares st0 !!! "AAPL"%string /\
    shares st1 !!! "AAPL"%string = 0 /\
    shares st2 !!! "AAPL"%string = 0.
Proof.
  destruct (run_backtest_curve (ex_close 252) (ex_signals 252) 200 5)
    as [[res curve]|e] eqn:E; [|vm_compute in E; discriminate].
  destruct (exits_precede_contribution _ _ _ _ res curve E ex_close_columns
              40%nat 19763%Z [Some 140; Some 50])
    as (sig & sigcells & st0 & st1 & st2 & Hloc & Hsig & H0 & _ & _ & H2 & _ & Hsold);
    [vm_compute; reflexivity|].
  pose proof Hloc as Hloc'. unfold loc in Hloc'. vm_compute in Hloc'.
  injection Hloc' as <-.
  vm_compute in Hsig. injection Hsig as <-.
  assert (Hheld : 0 < shares st0 !!! "AAPL"%string).
  { pose proof H0 as H0'. vm_compute in H0'. injection H0' as <-. reflexivity. }
  destruct (Hsold "AAPL"%string 140) as (_ & Hs1 & Hs2);
    [now left | exact Hheld | reflexivity |].
  eexists res, curve, _, st0, st1, st2.
  split; [reflexivity|]. split; [exact ex_close_columns|].
  split; [vm_compute; reflexivity|]. split; [exact Hloc|].
  split; [exact H0|]. split; [exact H2|].
  split; [exact Hheld|]. split; [exact Hs1 | exact Hs2].
Defined.

(** The example run: nine contribution days, whatever the signals. *)
Lemma invested_is_contribution_times_days_witness :
  exists res,
    run_backtest (ex_close 252) (ex_signals 252) 200 5 = Ok res /\
    BacktestResult.invested res = 200 * inject_Z (Z.of_nat (length ex_cdays)) /\
    BacktestResult.monthly_contribution_count res = 9%nat /\
    NoDup ex_cdays /\
    forall signals' res',
      run_backtest (ex_close 252) signals' 200 5 = Ok res' ->
      BacktestResult.invested res' = BacktestResult.invested res.
Proof.
  destruct (run_backtest (ex_close 252) (ex_signals 252) 200 5) as [res|e] eqn:E;
    [|vm_compute in E; discriminate].
  destruct (invested_is_contribution_times_days _ _ _ _ res E)
    as (Hinv & Hcnt & Hnd & _ & _ & _ & Hind).
  exists res. split; [reflexivity|]. split; [exact Hinv|].
  split; [rewrite Hcnt; vm_compute; reflexivity|]. split; [exact Hnd|].
  intros signals' res' H'. now apply (Hind (ex_close 252) signals' res' eq_refl).
Defined.
(** The first ticker of the example table on its 220th day: the first day
    with a moving average 20 days earlier, and a true signal. *)
Lemma build_signals_spec_witness :
  exists cells,
    rows (ex_close 252) !! 219%nat = Some (19942%Z, [Some 319; Some 50]) /\
    (0 < length (columns (ex_close 252)))%nat /\
    rows (build_signals (ex_close 252)) !! 219%nat = Some (19942%Z, cells) /\
    cells !! 0%nat = Some true /\
    exists c m m20,
      c = 319 /\
      spec_sma 200 (column (ex_close 252) 0 None) 219 = Some m /\
      spec_sma 200 (column (ex_close 252) 0 None) 199 = Some m20 /\
      m < c /\ m20 < m.
Proof.
  destruct (build_signals_spec (ex_close 252) 219 0 19942%Z [Some 319; Some 50])
    as (cells & b & Hrow & Hcell & Hiff & _);
    [vm_compute; reflexivity | vm_compute; lia |].
  assert (Hb : b = true).
  { vm_compute in Hrow. injection Hrow as <-. vm_compute in Hcell. now injection Hcell. }
  subst b. destruct (proj1 Hiff eq_refl) as (c & m & m20 & Hc & Hm & _ & Hm20 & Hlt & Hlt').
  injection Hc as <-.
  exists cells. split; [vm_compute; reflexivity|]. split; [vm_compute; lia|].
  split; [exact Hrow|]. split; [exact Hcell|].
  exists 319, m, m20. auto.
Defined.

(** The example tables cut at 251 rows, at 252 rows, and empty; the window
    of five years of the first two starts in 2019. *)
Lemma insufficient_history_boundary_witness :
  in_timestamp_range (sub_years (index_max (index (ex_close 251))) 5) /\
  in_timestamp_range (sub_years (index_max (index (ex_close 252))) 5) /\
  run_backtest (ex_close 251) (ex_signals 251) 200 5 =
    Err (ValueError "Not enough data for a meaningful backtest window.") /\
  run_backtest (ex_close 252) (ex_signals 252) 200 5 <>
    Err (ValueError "Not enough data for a meaningful backtest window.") /\
  run_backtest (ex_close 0) (ex_signals 0) 200 5 =
    Err (ValueError "Close prices are empty.").
Proof.
  assert (R251 : in_timestamp_range (sub_years (index_max (index (ex_close 251))) 5)).
  { vm_compute. split; discriminate. }
  assert (R252 : in_timestamp_range (sub_years (index_max (index (ex_close 252))) 5)).
  { vm_compute. split; discriminate. }
  destruct (insufficient_history_boundary (ex_close 251) (ex_signals 251) 200 5)
    as (_ & H251 & _).
  destruct (insufficient_history_boundary (ex_close 252) (ex_signals 252) 200 5)
    as (_ & H252 & _).
  destruct (insufficient_history_boundary (ex_close 0) (ex_signals 0) 200 5)
    as (H0 & _).
  split; [exact R251|]. split; [exact R252|]. split; [|split].
  - eapply (H251 eq_refl R251); [vm_compute; reflexivity | vm_compute; reflexivity].
  - eapply (H252 eq_refl R252); [vm_compute; reflexivity | vm_compute; reflexivity].
  - apply H0. reflexivity.
Defined.

(** The example run: 251 days from the first to the last date. *)
Lemma cagr_formula_witness :
  exists res curve first_point last_point,
    run_backtest_curve (ex_close 252) (ex_signals 252) 200 5 = Ok (res, curve) /\
    iloc_first curve = Ok first_point /\
    iloc_last curve = Ok last_point /\
    fst first_point = 19723%Z /\
    fst last_point = 19974%Z /\
    0 < BacktestResult.invested res /\
    0 < inject_Z (fst last_point - fst first_point) / (1461 # 4) /\
    BacktestResult.cagr res =
      BacktestResult.PowMinus1
        (BacktestResult.final_value res / BacktestResult.invested res)
        (1 / (inject_Z (fst last_point - fst first_point) / (1461 # 4))).
Proof.
  destruct (run_backtest_curve (ex_close 252) (ex_signals 252) 200 5)
    as [[res curve]|e] eqn:E; [|vm_compute in E; discriminate].
  destruct (cagr_formula (ex_close 252) (ex_signals 252) 200 5) as (_ & _ & H).
  destruct (H res curve E) as (fp & lp & Hf & Hl & _ & Hcagr & _).
  pose proof E as E'. vm_compute in E'. injection E' as Hres Hcurve.
  assert (Hfp : fst fp = 19723%Z).
  { rewrite <- Hcurve in Hf. cbn [iloc_first] in Hf. now injection Hf as <-. }
  assert (Hlp : fst lp = 19974%Z).
  { rewrite <- Hcurve in Hl. vm_compute in Hl. now injection Hl as <-. }
  assert (Hinv : 0 < BacktestResult.invested res) by (rewrite <- Hres; reflexivity).
  assert (Hper : 0 < inject_Z (fst lp - fst fp) / (1461 # 4))
    by (rewrite Hfp, Hlp; reflexivity).
  exists res, curve, fp, lp.
  split; [reflexivity|]. split; [exact Hf|]. split; [exact Hl|].
  split; [exact Hfp|]. split; [exact Hlp|]. split; [exact Hinv|].
  split; [exact Hper|]. now apply Hcagr.
Defined.



(** Eight days of example signals under the example proxy: five dates are
    kept, the first masked, the third untouched. *)
Lemma market_filter_is_and_mask_witness :
  exists out,
    apply_market_filter ex_market (ex_signals 8) = Ok out /\
    index out = [19724; 19725; 19726; 19727; 19728]%Z /\
    rows out !! 0%nat = Some (19724%Z, [false; false]) /\
    rows out !! 2%nat = Some (19726%Z, [true; true]).
Proof.
  destruct (market_filter_is_and_mask ex_market (ex_signals 8))
    as (out & Hout & _ & Hidx & _ & Hrows).
  destruct (Hrows 0%nat 19724%Z [true; true]) as (m0 & c0 & Hm0 & Hr0 & _ & Hoff & _);
    [vm_compute; reflexivity|].
  destruct (Hrows 2%nat 19726%Z [true; true]) as (m2 & c2 & Hm2 & Hr2 & _ & _ & Hon & _);
    [vm_compute; reflexivity|].
  vm_compute in Hm0. injection Hm0 as <-.
  vm_compute in Hm2. injection Hm2 as <-.
  rewrite (Hon eq_refl) in Hr2.
  assert (Hc0 : c0 = [false; false]).
  { pose proof Hout as Hout'. vm_compute in Hout'. injection Hout' as <-.
    vm_compute in Hr0. now injection Hr0 as <-. }
  subst c0.
  exists out. split; [exact Hout|]. split; [rewrite Hidx; vm_compute; reflexivity|].
  split; [exact Hr0 | exact Hr2].
Defined.

(** The example run: 2024-01-01 is a contribution day. *)
Lemma first_date_is_contribution_day_witness :
  exists res,
    run_backtest (ex_close 252) (ex_signals 252) 200 5 = Ok res /\
    StronglySorted Z.lt (index (ex_close 252)) /\
    is_contribution_day 19723%Z ex_cdays = true /\
    (1 <= BacktestResult.monthly_contribution_count res)%nat /\
    0 < BacktestResult.invested res.
Proof.
  destruct (run_backtest (ex_close 252) (ex_signals 252) 200 5) as [res|e] eqn:E;
    [|vm_compute in E; discriminate].
  destruct (first_date_is_contribution_day _ _ _ _ res E ex_close_sorted)
    as ((d & rest & Hidx & _ & Hcd) & Hcnt & Hinv).
  assert (Hd : d = 19723%Z).
  { vm_compute in Hidx. now injection Hidx as <- _. }
  subst d. destruct (Hinv eq_refl) as [Hpos _].
  exists res. split; [reflexivity|]. split; [exact ex_close_sorted|].
  split; [exact Hcd|]. split; [exact Hcnt | exact Hpos].
Defined.

(** * Further properties of the simulator *)

(** Day [i] of a successful run. *)
Lemma run_day close signals c years res curve i day cells :
  run_backtest_curve close signals c years = Ok (res, curve) ->
  let px := backtest_window close years in
  let cdays := contribution_days (index px) in
  rows px !! i = Some (day, cells) ->
  exists sig sigcells st0 st2,
    loc signals (index px) = Ok sig /\
    rows sig !! i = Some (day, sigcells) /\
    portfolio_after i px sig c cdays = Ok st0 /\
    portfolio_after (S i) px sig c cdays = Ok st2 /\
    day_trade c cdays day (row_series (columns sig) sigcells)
      (dropna (row_series (columns px) cells)) st0 = Ok st2.
Proof.
  intros Hrun px cdays Hrow.
  apply run_backtest_curve_Ok in Hrun.
  destruct Hrun as (sig & final & lp & fp & cg & _ & Hloc & _ & Hsim & _).
  fold px in Hloc, Hsim. fold cdays in Hsim.
  destruct (loc_index _ _ _ Hloc) as [Hidx _].
  destruct (simulate_day _ _ _ _ _ _ _ _ Hidx Hsim Hrow)
    as (sigcells & st0 & st2 & Hsig & H0 & H2 & Hday).
  now exists sig, sigcells, st0, st2.
Qed.

(** The exit loop only ever sets a positive share count to 0. *)
Lemma exit_positions_shares_le sigrow tradable st st1 t :
  exit_positions sigrow tradable st = Ok st1 ->
  shares st1 !!! t = shares st !!! t \/
  (0 < shares st !!! t /\ shares st1 !!! t = 0).
Proof.
  revert st. induction tradable as [|[t' p] rest IH]; intros st H; simpl in H.
  - injection H as <-. now left.
  - destruct (Qltb 0 (shares st !!! t')) eqn:Hheld; [|now apply IH].
    inv_bind H. destruct a; simpl in H; [now apply IH|].
    apply IH in H. simpl in H. apply Qltb_lt in Hheld.
    destruct (decide (t' = t)) as [->|Hne].
    + rewrite lookup_total_insert_eq in H. right. split; [exact Hheld|].
      destruct H as [H|[_ H]]; exact H.
    + now rewrite lookup_total_insert_ne in H.
Qed.

(** A ticker outside the loop's list is not touched. *)
Lemma exit_positions_untouched sigrow tradable st st1 t :
  exit_positions sigrow tradable st = Ok st1 ->
  ~ In t (map fst tradable) ->
  shares st1 !!! t = shares st !!! t.
Proof.
  revert st. induction tradable as [|[t' p] rest IH]; intros st H Hnot; simpl in *.
  - now injection H as <-.
  - destruct (Qltb 0 (shares st !!! t')); [|apply IH; tauto].
    inv_bind H. destruct a; simpl in H; [apply IH; tauto|].
    apply IH in H; [|tauto]. simpl in H.
    rewrite lookup_total_insert_ne in H; [exact H|]. intros ->. tauto.
Qed.

(** A held position makes the exit loop read its signal. *)
Lemma exit_positions_reads sigrow tradable st st1 t p :
  exit_positions sigrow tradable st = Ok st1 ->
  In (t, p) tradable -> 0 < shares st !!! t ->
  exists s, series_get sigrow t = Ok s.
Proof.
  revert st. induction tradable as [|[t' p'] rest IH]; intros st H Hin Hheld;
    simpl in H; [contradiction|].
  destruct Hin as [[= -> ->]|Hin].
  - apply Qltb_lt in Hheld. rewrite Hheld in H. inv_bind H. eauto.
  - destruct (Qltb 0 (shares st !!! t')) eqn:Hheld'; [|now apply (IH st)].
    inv_bind H. destruct (decide (t' = t)) as [->|Hne]; [eauto|].
    destruct a; simpl in H; [now apply (IH st)|].
    apply (IH _ H Hin). simpl. now rewrite lookup_total_insert_ne.
Qed.

Lemma active_of_reads sigrow tradable active t p :
  active_of sigrow tradable = Ok active -> In (t, p) tradable ->
  exists s, series_get sigrow t = Ok s.
Proof.
  revert active. induction tradable as [|[t' p'] rest IH]; intros active H Hin;
    simpl in H; [contradiction|].
  inv_bind H. inv_bind H. destruct Hin as [[= -> ->]|Hin]; [eauto|].
  now apply (IH a0).
Qed.

(** After a day, a tradable ticker with a positive share count has its
    signal on. *)
Lemma day_trade_held_signal c cdays day sigrow tradable st st2 t p :
  day_trade c cdays day sigrow tradable st = Ok st2 ->
  In (t, p) tradable -> 0 < shares st2 !!! t ->
  series_get sigrow t = Ok true.
Proof.
  intros H Hin Hheld. unfold day_trade in H. inv_bind H.
  assert (Hoff : series_get sigrow t <> Ok true -> shares st2 !!! t = shares a !!! t).
  { intros Hne. destruct (is_contribution_day day cdays).
    - now apply (contribute_inactive _ _ _ _ _ _ H).
    - now injection H as <-. }
  destruct (Qlt_le_dec 0 (shares st !!! t)) as [Hpos|Hneg].
  - destruct (exit_positions_reads _ _ _ _ _ _ Ha Hin Hpos) as [[|] Hs]; [exact Hs|].
    pose proof (exit_positions_sold _ _ _ _ _ _ Ha Hin Hpos Hs) as H0.
    rewrite Hoff, H0 in Hheld by congruence. lra.
  - assert (H1 : shares a !!! t = shares st !!! t).
    { destruct (exit_positions_shares_le _ _ _ _ t Ha) as [He|[Hp _]]; [exact He | lra]. }
    destruct (series_get sigrow t) as [[|]|e] eqn:Hs; [reflexivity| |].
    + rewrite Hoff, H1 in Hheld by congruence. lra.
    + rewrite Hoff, H1 in Hheld by congruence. lra.
Qed.

(** X1. At the end of every simulated day of a run, a ticker that has a
    price that day and a positive share count has its signal on that day:
    no priced position is kept against its signal. *)
Theorem held_positions_have_signal close signals c years res curve :
  run_backtest_curve close signals c years = Ok (res, curve) ->
  let px := backtest_window close years in
  let cdays := contribution_days (index px) in
  forall i day cells, rows px !! i = Some (day, cells) ->
  exists sig sigcells st2,
    loc signals (index px) = Ok sig /\
    rows sig !! i = Some (day, sigcells) /\
    portfolio_after (S i) px sig c cdays = Ok st2 /\
    forall t p,
      In (t, p) (dropna (row_series (columns px) cells)) ->
      0 < shares st2 !!! t ->
      series_get (row_series (columns sig) sigcells) t = Ok true.
Proof.
  intros Hrun px cdays i day cells Hrow.
  destruct (run_day _ _ _ _ _ _ _ _ _ Hrun Hrow)
    as (sig & sigcells & st0 & st2 & Hloc & Hsig & _ & H2 & Hday).
  exists sig, sigcells, st2. split; [exact Hloc|]. split; [exact Hsig|].
  split; [exact H2|]. intros t p Hin Hheld.
  now apply (day_trade_held_signal _ _ _ _ _ _ _ _ _ Hday Hin).
Qed.

(** When the exit loop finds nothing to sell it changes nothing. *)
Lemma exit_positions_idle sigrow tradable st st1 :
  exit_positions sigrow tradable st = Ok st1 ->
  List.filter (sells sigrow (shares st)) tradable = [] ->
  st1 = st.
Proof.
  induction tradable as [|[t p] rest IH]; intros H Hnone; simpl in H.
  - now injection H as <-.
  - simpl in Hnone. unfold sells at 1 in Hnone. simpl in Hnone.
    destruct (Qltb 0 (shares st !!! t)); simpl in Hnone.
    + inv_bind H. rewrite Ha in Hnone. destruct a; simpl in H; [now apply IH|].
      discriminate.
    + now apply IH.
Qed.

(** X2. On a simulated date that is not a contribution day nothing is
    bought: every share count is the one of the day before, or goes from a
    positive count to 0; and when no position is sold the whole portfolio,
    idle cash included, is the one of the day before. *)
Theorem no_purchase_between_contributions close signals c years res curve :
  run_backtest_curve close signals c years = Ok (res, curve) ->
  let px := backtest_window close years in
  let cdays := contribution_days (index px) in
  forall i day cells,
    rows px !! i = Some (day, cells) ->
    is_contribution_day day cdays = false ->
    exists sig sigcells st0 st2,
      loc signals (index px) = Ok sig /\
      rows sig !! i = Some (day, sigcells) /\
      portfolio_after i px sig c cdays = Ok st0 /\
      portfolio_after (S i) px sig c cdays = Ok st2 /\
      (forall t, shares st2 !!! t = shares st0 !!! t \/
                 (0 < shares st0 !!! t /\ shares st2 !!! t = 0)) /\
      (List.filter (sells (row_series (columns sig) sigcells) (shares st0))
                   (dropna (row_series (columns px) cells)) = [] ->
       st2 = st0).
Proof.
  intros Hrun px cdays i day cells Hrow Hcd.
  destruct (run_day _ _ _ _ _ _ _ _ _ Hrun Hrow)
    as (sig & sigcells & st0 & st2 & Hloc & Hsig & H0 & H2 & Hday).
  fold px in Hloc, H0, H2, Hday. fold cdays in H0, H2, Hday.
  unfold day_trade in Hday. inv_bind Hday. rewrite Hcd in Hday. injection Hday as <-.
  exists sig, sigcells, st0, a. split; [exact Hloc|]. split; [exact Hsig|].
  split; [exact H0|]. split; [exact H2|]. split.
  - intros t. now apply (exit_positions_shares_le _ _ _ _ t Ha).
  - intros Hnone. now apply (exit_positions_idle _ _ _ _ Ha).
Qed.

(** X3. With a contribution amount that is not negative and quoted prices
    that are all positive, the portfolio after any number of simulated days
    is long-only: the cash balance and every share count are at least 0. *)
Theorem portfolio_stays_long_only close signals c years res curve :
  run_backtest_curve close signals c years = Ok (res, curve) ->
  0 <= c ->
  (forall day cells p, In (day, cells) (rows close) -> In (Some p) cells -> 0 < p) ->
  let px := backtest_window close years in
  exists sig,
    loc signals (index px) = Ok sig /\
    forall n, exists st,
      portfolio_after n px sig c (contribution_days (index px)) = Ok st /\
      0 <= cash st /\ forall t, 0 <= shares st !!! t.
Proof.
  intros Hrun Hc Hprices px.
  apply run_backtest_curve_Ok in Hrun.
  destruct Hrun as (sig & final & lp & fp & cg & _ & Hloc & _ & Hsim & _).
  fold px in Hloc, Hsim. exists sig. split; [exact Hloc|]. intros n.
  unfold simulate in Hsim.
  destruct (for_each_prefix _ _ _ _ n Hsim) as (mid & Hmid & _).
  exists (fst mid). split; [unfold portfolio_after, simulate_days; now rewrite Hmid|].
  apply (for_each_invariant _ (fun s => long_only (fst s)) _ _ _) in Hmid; [exact Hmid| |].
  - intros s [[day cells] sr] s' Hr Hs Hstep. unfold day_step in Hstep. inv_bind Hstep.
    injection Hstep as <-. cbn [fst snd] in *.
    apply (day_trade_long_only _ _ _ _ _ _ _ Hc) in Ha; [tauto| |exact Hs].
    apply tradable_prices_pos. intros p Hp.
    apply list_elem_of_In, elem_of_take in Hr. destruct Hr as (k & Hr & _).
    apply list_elem_of_lookup_2, list_elem_of_In in Hr.
    apply in_combine_l in Hr. unfold px, backtest_window in Hr. cbn [rows] in Hr.
    apply filter_In in Hr. destruct Hr as [Hr _]. now apply (Hprices day cells p).
  - apply init_portfolio_long_only.
Qed.

(** ** Trading conserves value *)










(** * [download_close_prices] *)

Lemma ffill_from_length prev rs :
  Forall (fun r => length (snd r) = length prev) rs ->
  Forall (fun r => length (snd r) = length prev) (ffill_from prev rs).
Proof.
  revert prev. induction rs as [|[d cells] rs IH]; intros prev H; simpl; [constructor|].
  apply Forall_cons in H. destruct H as [Hc Hrs]. simpl in Hc.
  assert (Hcur : length (zip_with fill_cell prev cells) = length prev)
    by (rewrite length_zip_with; lia).
  constructor; [exact Hcur|].
  rewrite <- Hcur. apply IH. rewrite Hcur. exact Hrs.
Qed.

Lemma ffill_from_index prev rs : map fst (ffill_from prev rs) = map fst rs.
Proof.
  revert prev. induction rs as [|[d cells] rs IH]; intros prev; simpl; [reflexivity|].
  now rewrite IH.
Qed.

(** A price of the filled row above is carried into every row below. *)
Lemma ffill_from_carries prev rs r j p :
  Forall (fun r => length (snd r) = length prev) rs ->
  In r (ffill_from prev rs) -> prev !! j = Some (Some p) ->
  exists p', snd r !! j = Some (Some p').
Proof.
  revert prev p. induction rs as [|[d cells] rs IH]; intros prev p H Hin Hp; simpl in Hin;
    [contradiction|].
  apply Forall_cons in H. destruct H as [Hc Hrs]. simpl in Hc.
  assert (Hcur : exists p', zip_with fill_cell prev cells !! j = Some (Some p')).
  { rewrite lookup_zip_with, Hp. simpl.
    destruct (lookup_lt_is_Some_2 cells j) as [c ->].
    - rewrite Hc. now apply lookup_lt_Some in Hp.
    - simpl. destruct c; simpl; eauto. }
  destruct Hin as [<-|Hin]; [exact Hcur|].
  destruct Hcur as [p' Hp'].
  apply (IH (zip_with fill_cell prev cells) p'); [|exact Hin | exact Hp'].
  rewrite length_zip_with. eapply Forall_impl; [exact Hrs|]. simpl. intros; lia.
Qed.

(** A price of a filled row is there in every filled row below. *)
Lemma ffill_from_sorted prev rs :
  Forall (fun r => length (snd r) = length prev) rs ->
  StronglySorted
    (fun r r' => forall j p, snd r !! j = Some (Some p) ->
                             exists p', snd r' !! j = Some (Some p'))
    (ffill_from prev rs).
Proof.
  revert prev. induction rs as [|[d cells] rs IH]; intros prev H; simpl; [constructor|].
  apply Forall_cons in H. destruct H as [Hc Hrs]. simpl in Hc.
  assert (Hlen : Forall (fun r => length (snd r) = length (zip_with fill_cell prev cells)) rs).
  { rewrite length_zip_with. eapply Forall_impl; [exact Hrs|]. simpl. intros; lia. }
  constructor; [now apply IH|].
  apply Forall_forall. intros r Hr j p Hp. cbn [snd] in Hp.
  apply list_elem_of_In in Hr. now apply (ffill_from_carries _ _ _ _ _ Hlen Hr Hp).
Qed.

(** A filled cell holds the latest price quoted at or above its row, or the
    price carried in from above the table. *)
Lemma ffill_from_latest prev rs i d cur j p :
  ffill_from prev rs !! i = Some (d, cur) -> cur !! j = Some (Some p) ->
  (exists k d' cells,
     (k <= i)%nat /\ rs !! k = Some (d', cells) /\ cells !! j = Some (Some p) /\
     forall k' r', (k < k' <= i)%nat -> rs !! k' = Some r' -> snd r' !! j = Some None) \/
  (prev !! j = Some (Some p) /\
   forall k' r', (k' <= i)%nat -> rs !! k' = Some r' -> snd r' !! j = Some None).
Proof.
  revert prev i. induction rs as [|[d0 cells] rs IH]; intros prev i Hi Hp; simpl in Hi;
    [discriminate|].
  assert (Hhead : forall q, zip_with fill_cell prev cells !! j = Some (Some q) ->
            cells !! j = Some (Some q) \/ (cells !! j = Some None /\ prev !! j = Some (Some q))).
  { intros q Hq. rewrite lookup_zip_with in Hq.
    destruct (prev !! j) as [x|]; simpl in Hq; [|discriminate].
    destruct (cells !! j) as [[c|]|]; simpl in Hq; try discriminate.
    - left. congruence.
    - right. split; congruence. }
  destruct i as [|i]; simpl in Hi.
  - injection Hi as <- <-. destruct (Hhead p Hp) as [Hc|[Hc Hprev]].
    + left. exists 0%nat, d0, cells. split; [lia|]. split; [reflexivity|].
      split; [exact Hc|]. intros k' r' Hk. lia.
    + right. split; [exact Hprev|]. intros [|k'] r' Hk Hr'; [|lia].
      simpl in Hr'. now injection Hr' as <-.
  - destruct (IH _ _ Hi Hp) as [(k & d' & cells' & Hk & Hrow & Hc & Hlater)|[Hcur Hnone]].
    + left. exists (S k), d', cells'. split; [lia|]. split; [exact Hrow|].
      split; [exact Hc|]. intros [|k'] r' Hk' Hr'; [lia|].
      apply (Hlater k' r'); [lia | exact Hr'].
    + destruct (Hhead p Hcur) as [Hc|[Hc Hprev]].
      * left. exists 0%nat, d0, cells. split; [lia|]. split; [reflexivity|].
        split; [exact Hc|]. intros [|k'] r' Hk' Hr'; [lia|].
        apply (Hnone k' r'); [lia | exact Hr'].
      * right. split; [exact Hprev|]. intros [|k'] r' Hk' Hr'.
        -- simpl in Hr'. now injection Hr' as <-.
        -- apply (Hnone k' r'); [lia | exact Hr'].
Qed.

(** A quoted price is left as it is. *)
Lemma ffill_from_keeps prev rs i d cells j p :
  rs !! i = Some (d, cells) -> cells !! j = Some (Some p) -> (j < length prev)%nat ->
  Forall (fun r => length (snd r) = length prev) rs ->
  exists cur, ffill_from prev rs !! i = Some (d, cur) /\ cur !! j = Some (Some p).
Proof.
  revert prev i. induction rs as [|[d0 cells0] rs IH]; intros prev i Hi Hc Hj Hlen;
    [discriminate|].
  apply Forall_cons in Hlen. destruct Hlen as [Hc0 Hrs]. simpl in Hc0.
  destruct i as [|i]; simpl in Hi |- *.
  - injection Hi as -> ->. eexists. split; [reflexivity|].
    rewrite lookup_zip_with, Hc. destruct (lookup_lt_is_Some_2 prev j Hj) as [x ->].
    reflexivity.
  - apply IH; [exact Hi | exact Hc | rewrite length_zip_with; lia |].
    rewrite length_zip_with. eapply Forall_impl; [exact Hrs|]. simpl. intros; lia.
Qed.

Lemma StronglySorted_weaken {A : Type} (R R' : A -> A -> Prop) (l : list A) :
  (forall x y, R x y -> R' x y) -> StronglySorted R l -> StronglySorted R' l.
Proof.
  intros Himp. induction 1 as [|x l Hs IH Hall]; constructor; [exact IH|].
  eapply Forall_impl; [exact Hall|]. intros y. apply Himp.
Qed.

Lemma combine_lookup {A B : Type} (l1 : list A) (l2 : list B) (j : nat) (x : A) (y : B) :
  combine l1 l2 !! j = Some (x, y) <-> l1 !! j = Some x /\ l2 !! j = Some y.
Proof.
  revert l2 j. induction l1 as [|a l1 IH]; intros [|b l2] [|j]; simpl;
    try (split; [discriminate | intros [? ?]; discriminate]).
  - split; [intros [= -> ->]; auto | intros [[= ->] [= ->]]; reflexivity].
  - apply IH.
Qed.

(** A ticker is priced in a row when its column holds a price there. *)
Lemma priced_lookup cols cells t :
  priced cols cells t <->
  exists j p, cols !! j = Some t /\ cells !! j = Some (Some p).
Proof.
  unfold priced, row_series. rewrite in_map_iff. split.
  - intros ([t' p] & Heq & Hin). simpl in Heq. subst t'.
    apply dropna_price, list_elem_of_In, list_elem_of_lookup in Hin.
    destruct Hin as [j Hj]. apply combine_lookup in Hj. now exists j, p.
  - intros (j & p & Hc & Hp). exists (t, p). split; [reflexivity|].
    apply dropna_price, list_elem_of_In. apply (list_elem_of_lookup_2 _ j).
    now apply combine_lookup.
Qed.

Lemma replicate_None_lookup (n j : nat) (p : Q) :
  replicate n (@None Q) !! j <> Some (Some p).
Proof. intros H. apply lookup_replicate_1 in H. destruct H; discriminate. Qed.

Lemma dropna_all_full (data : DataFrame (option Q)) :
  full_rows data ->
  Forall (fun r => length (snd r) = length (replicate (length (columns data)) (@None Q)))
         (dropna_all (rows data)).
Proof.
  intros Hfull. apply Forall_forall. intros r Hr. rewrite length_replicate.
  apply Hfull. apply list_elem_of_In in Hr. unfold dropna_all in Hr.
  apply filter_In in Hr. tauto.
Qed.

(** A forward-filled table keeps a price once it has one. *)
Lemma ffill_forward_filled (cols : list string) (rs : list (date * list (option Q))) :
  Forall (fun r => length (snd r) = length (replicate (length cols) (@None Q))) rs ->
  forward_filled (ffill (mkFrame cols rs)).
Proof.
  intros Hlen. unfold forward_filled, ffill. cbn [columns rows].
  eapply StronglySorted_weaken; [|apply (ffill_from_sorted _ _ Hlen)].
  intros r r' Hrr' t Ht. apply priced_lookup in Ht. destruct Ht as (j & p & Hc & Hp).
  destruct (Hrr' j p Hp) as [p' Hp']. apply priced_lookup. now exists j, p'.
Qed.

(** X5. [download_close_prices] raises its no-data error exactly on an
    empty frame.  Otherwise it returns a table with the columns of the
    download and, in order, the dates of the rows that quote at least one
    price; every row of it is full and still quotes a price, and a ticker
    with a price in a row has one in every later row. *)
Theorem download_close_prices_forward_filled data :
  full_rows data ->
  (empty data = true /\
   download_close_prices data = Err (ValueError "No data returned from yfinance.")) \/
  (empty data = false /\
   exists close,
     download_close_prices data = Ok close /\
     columns close = columns data /\
     index close = map fst (dropna_all (rows data)) /\
     full_rows close /\
     (forall r, In r (rows close) -> exists j p, snd r !! j = Some (Some p)) /\
     forward_filled close).
Proof.
  intros Hfull. unfold download_close_prices.
  destruct (empty data) eqn:He; [left; auto|]. right. split; [reflexivity|].
  eexists. split; [reflexivity|]. unfold ffill. cbn [columns rows].
  set (prev := replicate (length (columns data)) (@None Q)).
  pose proof (dropna_all_full data Hfull) as Hlen. fold prev in Hlen.
  split; [reflexivity|]. split; [apply ffill_from_index|]. split; [|split].
  - intros r Hr. cbn [rows columns] in *.
    pose proof (ffill_from_length _ _ Hlen) as Hout. rewrite Forall_forall in Hout.
    apply list_elem_of_In, Hout in Hr. rewrite Hr. apply length_replicate.
  - intros r Hr. apply list_elem_of_In, list_elem_of_lookup in Hr. destruct Hr as [i Hi].
    assert (Hsrc : exists src, dropna_all (rows data) !! i = Some src).
    { apply lookup_lt_is_Some_2. apply lookup_lt_Some in Hi.
      now rewrite <- (length_map fst), ffill_from_index, length_map in Hi. }
    destruct Hsrc as [[d cells] Hsrc].
    assert (Hquote : exists j p, cells !! j = Some (Some p)).
    { apply list_elem_of_lookup_2, list_elem_of_In in Hsrc. unfold dropna_all in Hsrc.
      apply filter_In in Hsrc. destruct Hsrc as [_ Hex]. cbn [snd] in Hex.
      apply existsb_exists in Hex. destruct Hex as ([p|] & Hin & Hp); [|discriminate].
      apply list_elem_of_In, list_elem_of_lookup in Hin. destruct Hin as [j Hj].
      now exists j, p. }
    destruct Hquote as (j & p & Hj).
    destruct (ffill_from_keeps prev _ i d cells j p Hsrc Hj) as (cur & Hcur & Hp);
      [|exact Hlen|].
    + rewrite Forall_forall in Hlen.
      apply list_elem_of_lookup_2, Hlen in Hsrc. cbn [snd] in Hsrc.
      rewrite <- Hsrc. now apply lookup_lt_Some in Hj.
    + rewrite Hi in Hcur. injection Hcur as ->. now exists j, p.
  - exact (ffill_forward_filled (columns data) _ Hlen).
Qed.

(** X6. The table [download_close_prices] returns never invents a price.
    Over the rows that quote at least one price, a quoted price is kept as
    it is, and a price of the returned table is the latest price quoted for
    that column at or above its row. *)
Theorem download_close_prices_latest_quote data close :
  full_rows data ->
  download_close_prices data = Ok close ->
  let kept := dropna_all (rows data) in
  (forall i d cells j p,
     kept !! i = Some (d, cells) -> cells !! j = Some (Some p) ->
     exists cur, rows close !! i = Some (d, cur) /\ cur !! j = Some (Some p)) /\
  (forall i d cur j p,
     rows close !! i = Some (d, cur) -> cur !! j = Some (Some p) ->
     exists k d' cells,
       (k <= i)%nat /\ kept !! k = Some (d', cells) /\ cells !! j = Some (Some p) /\
       forall k' r', (k < k' <= i)%nat -> kept !! k' = Some r' -> snd r' !! j = Some None).
Proof.
  intros Hfull H kept. unfold download_close_prices in H.
  destruct (empty data); [discriminate|]. injection H as <-.
  unfold ffill. cbn [columns rows]. fold kept.
  pose proof (dropna_all_full data Hfull) as Hlen. fold kept in Hlen. split.
  - intros i d cells j p Hi Hj. apply ffill_from_keeps with (cells := cells); auto.
    rewrite Forall_forall in Hlen. apply list_elem_of_lookup_2, Hlen in Hi.
    cbn [snd] in Hi. rewrite <- Hi. now apply lookup_lt_Some in Hj.
  - intros i d cur j p Hi Hj.
    destruct (ffill_from_latest _ _ _ _ _ _ _ Hi Hj) as [Hk|[Hprev _]]; [exact Hk|].
    now apply replicate_None_lookup in Hprev.
Qed.

(** * Held positions under forward-filled prices *)

Lemma StronglySorted_lookup_lt {A : Type} (R : A -> A -> Prop) (l : list A) i j x y :
  StronglySorted R l -> l !! i = Some x -> l !! j = Some y -> (i < j)%nat -> R x y.
Proof.
  intros Hs. revert i j. induction Hs as [|a l Hs IH Hall]; intros i j Hi Hj Hlt;
    [discriminate|].
  destruct j as [|j]; [lia|]. simpl in Hj. destruct i as [|i]; simpl in Hi.
  - injection Hi as <-. rewrite Forall_forall in Hall.
    now apply Hall, (list_elem_of_lookup_2 _ j).
  - apply (IH i j); [exact Hi | exact Hj | lia].
Qed.

Lemma contribute_untouched c sigrow tradable st st2 t :
  contribute c sigrow tradable st = Ok st2 ->
  ~ In t (map fst tradable) -> shares st2 !!! t = shares st !!! t.
Proof.
  intros H Hnot. unfold contribute in H. inv_bind H.
  assert (Hnota : ~ In t (map fst a)).
  { intros Hin. apply Hnot. apply in_map_iff in Hin. destruct Hin as ([t' p] & Heq & Hin).
    simpl in Heq. subst t'. apply (active_of_spec _ _ _ Ha) in Hin.
    now apply (in_map fst _ (t, p)). }
  destruct a as [|tp act]; [now injection H as <-|].
  destruct (Qltb 0 (cash st + c)); injection H as <-; cbn [shares]; [|reflexivity].
  exact (buy_other _ (tp :: act) (shares st) t Hnota).
Qed.

Lemma day_trade_untouched c cdays day sigrow tradable st st2 t :
  day_trade c cdays day sigrow tradable st = Ok st2 ->
  ~ In t (map fst tradable) -> shares st2 !!! t = shares st !!! t.
Proof.
  intros H Hnot. unfold day_trade in H. inv_bind H.
  rewrite <- (exit_positions_untouched _ _ _ _ _ Ha Hnot).
  destruct (is_contribution_day day cdays).
  - now apply (contribute_untouched _ _ _ _ _ _ H).
  - now injection H as <-.
Qed.

Lemma portfolio_after_0 px sig c cdays :
  portfolio_after 0 px sig c cdays = Ok (init_portfolio (columns px)).
Proof. reflexivity. Qed.

Lemma init_portfolio_shares cols t : shares (init_portfolio cols) !!! t == 0.
Proof.
  simpl. rewrite lookup_total_alt.
  destruct (_ !! t) as [x|] eqn:Hx; simpl; [|reflexivity].
  apply elem_of_list_to_map_2, list_elem_of_In, in_map_iff in Hx.
  destruct Hx as (t' & [= _ <-] & _). reflexivity.
Qed.

(** X7. Over a price table in which a ticker with a price keeps one on
    every later row, as [download_close_prices] returns it, a run never
    holds a position it cannot value: at the end of every simulated day each
    ticker with a positive share count has a price that day, so the equity
    of the day counts it. *)
Theorem held_positions_are_priced close signals c years res curve :
  run_backtest_curve close signals c years = Ok (res, curve) ->
  forward_filled close ->
  let px := backtest_window close years in
  let cdays := contribution_days (index px) in
  exists sig,
    loc signals (index px) = Ok sig /\
    forall i day cells st,
      rows px !! i = Some (day, cells) ->
      portfolio_after (S i) px sig c cdays = Ok st ->
      forall t, 0 < shares st !!! t ->
        exists p, In (t, p) (dropna (row_series (columns px) cells)).
Proof.
  intros Hrun Hff px cdays.
  assert (Hffpx : StronglySorted
            (fun r r' => forall t, priced (columns px) (snd r) t ->
                                   priced (columns px) (snd r') t) (rows px)).
  { unfold px, backtest_window. cbn [rows columns]. now apply StronglySorted_list_filter. }
  pose proof Hrun as Hrun'. apply run_backtest_curve_Ok in Hrun'.
  destruct Hrun' as (sig & final & lp & fp & cg & _ & Hloc & _ & Hsim & _).
  fold px in Hloc, Hsim. fold cdays in Hsim.
  destruct (loc_index _ _ _ Hloc) as [Hidx _].
  exists sig. split; [exact Hloc|].
  assert (Hpriced : forall i day cells st,
            rows px !! i = Some (day, cells) ->
            portfolio_after (S i) px sig c cdays = Ok st ->
            forall t, 0 < shares st !!! t -> priced (columns px) cells t).
  { induction i as [|i IH]; intros day cells st Hrow Hst t Hheld.
    - destruct (simulate_day _ _ _ _ _ _ _ _ Hidx Hsim Hrow)
        as (sigcells & st0 & st2 & _ & H0 & H2 & Hday).
      rewrite Hst in H2. injection H2 as <-.
      rewrite portfolio_after_0 in H0. injection H0 as <-.
      destruct (in_dec String.string_dec t (map fst (dropna (row_series (columns px) cells))))
        as [Hin|Hnot]; [exact Hin|].
      rewrite (day_trade_untouched _ _ _ _ _ _ _ _ Hday Hnot) in Hheld.
      pose proof (init_portfolio_shares (columns close) t). lra.
    - destruct (simulate_day _ _ _ _ _ _ _ _ Hidx Hsim Hrow)
        as (sigcells & st0 & st2 & _ & H0 & H2 & Hday).
      rewrite Hst in H2. injection H2 as <-.
      destruct (in_dec String.string_dec t (map fst (dropna (row_series (columns px) cells))))
        as [Hin|Hnot]; [exact Hin|].
      rewrite (day_trade_untouched _ _ _ _ _ _ _ _ Hday Hnot) in Hheld.
      destruct (lookup_lt_is_Some_2 (rows px) i) as [[day' cells'] Hrow'].
      { apply lookup_lt_Some in Hrow. lia. }
      pose proof (IH _ _ _ Hrow' H0 t Hheld) as Hbefore.
      apply (StronglySorted_lookup_lt _ _ i (S i) _ _ Hffpx Hrow' Hrow); [lia|].
      exact Hbefore. }
  intros i day cells st Hrow Hst t Hheld.
  pose proof (Hpriced _ _ _ _ Hrow Hst t Hheld) as Hp. unfold priced in Hp.
  apply in_map_iff in Hp. destruct Hp as ([t' p] & Heq & Hin). simpl in Heq. subst t'.
  now exists p.
Qed.

(** * The shape and the warm-up of [build_signals] *)

Lemma build_signals_columns close : columns (build_signals close) = columns close.
Proof. reflexivity. Qed.

Lemma build_signals_index close : index (build_signals close) = index close.
Proof.
  unfold index, build_signals. cbn [rows]. apply list_eq. intros i.
  change (map ?f ?l) with (f <$> l).
  rewrite !list_lookup_fmap, list_lookup_imap. now destruct (rows close !! i).
Qed.

Lemma build_signals_full close : full_rows (build_signals close).
Proof.
  intros r Hr. unfold build_signals in *. cbn [rows columns] in *.
  apply list_elem_of_In, list_elem_of_lookup in Hr. destruct Hr as [i Hi].
  rewrite list_lookup_imap in Hi. destruct (rows close !! i); [|discriminate].
  injection Hi as <-. cbn [snd]. now rewrite !length_map, length_seq.
Qed.

(** A cell of the signal table is the entry of its row in the signal series
    of its column. *)
Lemma build_signals_cell close i day cells j b :
  rows (build_signals close) !! i = Some (day, cells) ->
  cells !! j = Some b ->
  exists prices,
    rows close !! i = Some (day, prices) /\
    (j < length (columns close))%nat /\
    signal_series (column close j None) !! i = Some b /\
    nth i (column close j None) None = nth j prices None.
Proof.
  intros Hrow Hcell. unfold build_signals in Hrow. cbn [rows] in Hrow.
  rewrite list_lookup_imap in Hrow.
  destruct (rows close !! i) as [[d prices]|] eqn:Hr; [|discriminate].
  injection Hrow as <- <-. exists prices. split; [reflexivity|].
  change (map ?f ?l) with (f <$> l) in Hcell. rewrite !list_lookup_fmap in Hcell.
  destruct (seq 0 (length (columns close)) !! j) as [j'|] eqn:Hj; [|discriminate].
  apply lookup_seq in Hj. destruct Hj as [-> Hj]. change (0 + j)%nat with j in Hcell.
  cbn [fmap option_fmap option_map] in Hcell. injection Hcell as <-.
  assert (Hi : (i < length (signal_series (column close j None)))%nat).
  { rewrite signal_series_length. unfold column. rewrite length_map.
    now apply lookup_lt_Some in Hr. }
  split; [exact Hj|]. split.
  - rewrite nth_lookup. destruct (lookup_lt_is_Some_2 _ _ Hi) as [x ->]. reflexivity.
  - unfold column. rewrite nth_lookup. change (map ?f ?l) with (f <$> l).
    now rewrite list_lookup_fmap, Hr.
Qed.

Lemma all_present_missing (l : list (option Q)) : In None l -> all_present l = None.
Proof.
  induction l as [|[x|] l IH]; simpl; intros H; [contradiction| |reflexivity].
  destruct H as [H|H]; [discriminate|]. now rewrite IH.
Qed.

(** A missing price inside the window leaves the moving average undefined. *)
Lemma spec_sma_missing (n : nat) (close : list (option Q)) (i k : nat) :
  nth k close None = None -> (k <= i < k + n)%nat -> spec_sma n close i = None.
Proof.
  intros Hk Hi. unfold spec_sma. destruct (Nat.leb_spec n (S i)); [|reflexivity].
  rewrite all_present_missing; [reflexivity|].
  apply in_map_iff. exists k. split; [exact Hk|]. apply in_seq. lia.
Qed.

Lemma cell_gt_None_l b : cell_gt None b = false.
Proof. reflexivity. Qed.

Lemma cell_gt_None_r a : cell_gt a None = false.
Proof. now destruct a. Qed.

(** No signal is true on the first 219 rows. *)
Lemma build_signals_warmup close i day cells j b :
  rows (build_signals close) !! i = Some (day, cells) ->
  cells !! j = Some b -> (i < 219)%nat -> b = false.
Proof.
  intros Hrow Hcell Hi.
  destruct (build_signals_cell _ _ _ _ _ _ Hrow Hcell) as (prices & Hr & Hj & Hsig & _).
  rewrite signal_series_lookup in Hsig.
  2:{ unfold column. rewrite length_map. now apply lookup_lt_Some in Hr. }
  injection Hsig as <-. apply andb_false_iff. right.
  destruct (Nat.ltb_spec i 20); [apply cell_gt_None_r|].
  rewrite (spec_sma_warmup 200 _ (i - 20)) by lia. apply cell_gt_None_r.
Qed.

(** X8. The signal table has the columns, the dates and the row width of
    the price table, and no signal is true on its first 219 rows: the
    200-day average exists from row 199 on, and the one of 20 trading days
    earlier from row 219 on. *)
Theorem build_signals_shape_and_warmup close :
  columns (build_signals close) = columns close /\
  index (build_signals close) = index close /\
  full_rows (build_signals close) /\
  forall i day cells j b,
    rows (build_signals close) !! i = Some (day, cells) ->
    cells !! j = Some b -> (i < 219)%nat -> b = false.
Proof.
  split; [apply build_signals_columns|]. split; [apply build_signals_index|].
  split; [apply build_signals_full|]. apply build_signals_warmup.
Qed.

(** X9. A missing price silences its ticker for 220 trading days: when a
    column has no price on row [k], its signal is false on rows [k] to
    [k + 219], whatever the other prices. *)
Theorem missing_price_silences_signal close k d prices j :
  rows close !! k = Some (d, prices) ->
  nth j prices None = None ->
  forall i day cells b,
    (k <= i < k + 220)%nat ->
    rows (build_signals close) !! i = Some (day, cells) ->
    cells !! j = Some b -> b = false.
Proof.
  intros Hk Hmiss i day cells b Hi Hrow Hcell.
  destruct (build_signals_cell _ _ _ _ _ _ Hrow Hcell) as (prices' & Hr & Hj & Hsig & _).
  assert (Hnth : nth k (column close j None) None = None).
  { unfold column. rewrite nth_lookup. change (map ?f ?l) with (f <$> l).
    now rewrite list_lookup_fmap, Hk. }
  rewrite signal_series_lookup in Hsig.
  2:{ unfold column. rewrite length_map. now apply lookup_lt_Some in Hr. }
  injection Hsig as <-.
  destruct (Nat.lt_ge_cases i (k + 200)) as [Hnear|Hfar].
  - rewrite (spec_sma_missing 200 _ i k Hnth) by lia.
    rewrite cell_gt_None_r. reflexivity.
  - apply andb_false_iff. right.
    destruct (Nat.ltb_spec i 20); [apply cell_gt_None_r|].
    rewrite (spec_sma_missing 200 _ (i - 20) k Hnth) by lia. apply cell_gt_None_r.
Qed.

(** * The exceptions of [main] *)

Lemma find_date_total {A : Type} (rs : list (date * A)) (d : date) :
  In d (map fst rs) -> exists r, List.find (fun r => (fst r =? d)%Z) rs = Some r.
Proof.
  induction rs as [|r rs IH]; simpl; [contradiction|].
  intros [H|H].
  - match goal with |- context [if ?c then _ else _] => replace c with true end;
      [eauto | subst d; symmetry; apply Z.eqb_refl].
  - match goal with |- context [if ?c then _ else _] => destruct c end; [eauto | now apply IH].
Qed.





Lemma empty_rows {A : Type} (df : DataFrame A) : empty df = false -> rows df <> [].
Proof. unfold empty. now destruct (rows df), (columns df). Qed.
















(** * [latest_signal_table] *)

Lemma string_compare_OT (a b : string) :
  OrdersEx.String_as_OT.compare a b = String.compare a b.
Proof. reflexivity. Qed.

Lemma label_lt_trans (a b c : string) :
  String.ltb a b = true -> String.ltb b c = true -> String.ltb a c = true.
Proof.
  unfold String.ltb. intros Hab Hbc.
  assert (Hab' : OrdersEx.String_as_OT.lt a b).
  { unfold OrdersEx.String_as_OT.lt. rewrite string_compare_OT.
    revert Hab. now destruct (String.compare a b). }
  assert (Hbc' : OrdersEx.String_as_OT.lt b c).
  { unfold OrdersEx.String_as_OT.lt. rewrite string_compare_OT.
    revert Hbc. now destruct (String.compare b c). }
  pose proof (@RelationClasses.StrictOrder_Transitive _ _
                OrdersEx.String_as_OT.lt_strorder a b c Hab' Hbc') as Hac.
  unfold OrdersEx.String_as_OT.lt in Hac. rewrite string_compare_OT in Hac. now rewrite Hac.
Qed.

Lemma label_lt_irrefl (a : string) : String.ltb a a = false.
Proof.
  unfold String.ltb. pose proof (String.compare_antisym a a) as H.
  destruct (String.compare a a); try reflexivity; discriminate.
Qed.

(** Two labels that are neither below nor equal are above. *)
Lemma label_gt (a b : string) :
  String.ltb a b = false -> String.eqb a b = false -> String.ltb b a = true.
Proof.
  unfold String.ltb. intros Hlt Hne. rewrite String.compare_antisym.
  destruct (String.compare a b) eqn:Hc; [|discriminate|reflexivity].
  apply String.compare_eq_iff in Hc. apply String.eqb_neq in Hne. contradiction.
Qed.

Lemma label_insert_In (t : string) (l : list string) (x : string) :
  In x (label_insert t l) <-> x = t \/ In x l.
Proof.
  induction l as [|t' r IH]; simpl; [intuition congruence|].
  destruct (String.ltb t t'); [simpl; intuition congruence|].
  destruct (String.eqb_spec t t') as [->|Hne]; simpl; [intuition congruence|].
  rewrite IH. intuition congruence.
Qed.

Lemma label_insert_sorted (t : string) (l : list string) :
  StronglySorted (fun a b => String.ltb a b = true) l ->
  StronglySorted (fun a b => String.ltb a b = true) (label_insert t l).
Proof.
  induction 1 as [|t' r Hs IH Hall]; simpl; [repeat constructor|].
  destruct (String.ltb t t') eqn:Hlt.
  - constructor; [now constructor|]. constructor; [exact Hlt|].
    eapply Forall_impl; [exact Hall|]. intros x Hx. cbn beta in *.
    now apply (label_lt_trans t t' x).
  - destruct (String.eqb t t') eqn:Heq; [now constructor|].
    constructor; [exact IH|]. apply Forall_forall. intros x Hx.
    apply list_elem_of_In, label_insert_In in Hx. destruct Hx as [->|Hx].
    + now apply label_gt.
    + rewrite Forall_forall in Hall. now apply Hall, list_elem_of_In.
Qed.

(** The sorted union holds each label of the two indexes once, in strictly
    increasing order. *)
Lemma sorted_labels_spec (l1 l2 : list string) :
  StronglySorted (fun a b => String.ltb a b = true) (sorted_labels l1 l2) /\
  forall x, In x (sorted_labels l1 l2) <-> In x l1 \/ In x l2.
Proof.
  unfold sorted_labels.
  assert (H : forall l acc,
            StronglySorted (fun a b => String.ltb a b = true) acc ->
            StronglySorted (fun a b => String.ltb a b = true)
              (fold_left (fun acc t => label_insert t acc) l acc) /\
            forall x, In x (fold_left (fun acc t => label_insert t acc) l acc) <->
                      In x l \/ In x acc).
  { induction l as [|t l IH]; intros acc Hacc; simpl; [intuition|].
    destruct (IH _ (label_insert_sorted t acc Hacc)) as [Hs Hin].
    split; [exact Hs|]. intros x. rewrite Hin, label_insert_In. intuition congruence. }
  destruct (H (l1 ++ l2) [] (SSorted_nil _)) as [Hs Hin]. split; [exact Hs|].
  intros x. rewrite Hin, in_app_iff. simpl. tauto.
Qed.

Lemma series_get_combine {A : Type} (cols : list string) (cells : list A) j t v :
  NoDup cols -> cols !! j = Some t -> cells !! j = Some v ->
  series_get (combine cols cells) t = Ok v.
Proof.
  intros Hnd. revert cells j. induction Hnd as [|c cols Hnot Hnd IH]; intros cells j Hc Hv;
    [discriminate|].
  destruct cells as [|x cells]; [discriminate|]. simpl.
  destruct j as [|j]; simpl in Hc, Hv.
  - injection Hc as ->. injection Hv as ->. now rewrite String.eqb_refl.
  - destruct (String.eqb_spec c t) as [->|_]; [|now apply (IH cells j)].
    exfalso. apply Hnot. now apply (list_elem_of_lookup_2 _ j).
Qed.

Lemma find_date_unique {A : Type} (rs : list (date * A)) (d : date) (c : A) :
  NoDup (map fst rs) -> In (d, c) rs ->
  List.find (fun r => (fst r =? d)%Z) rs = Some (d, c).
Proof.
  induction rs as [|[d' c'] rs IH]; intros Hnd Hin; [contradiction|].
  simpl in Hnd. apply NoDup_cons in Hnd. destruct Hnd as [Hnot Hnd]. cbn [List.find fst].
  destruct Hin as [[= -> ->]|Hin].
  - now rewrite Z.eqb_refl.
  - destruct (Z.eqb_spec d' d) as [->|_]; [|now apply IH].
    exfalso. apply Hnot. apply list_elem_of_In. now apply (in_map fst _ (d, c)).
Qed.

Lemma loc_row_found {A : Type} (df : DataFrame A) (d : date) :
  In d (index df) ->
  exists r, In r (rows df) /\ fst r = d /\
            loc_row df d = Ok (row_series (columns df) (snd r)).
Proof.
  intros Hd. unfold loc_row.
  destruct (find_date_total (rows df) d Hd) as [r Hr]. exists r.
  pose proof (find_some _ _ Hr) as [Hin Heq]. apply Z.eqb_eq in Heq.
  split; [exact Hin|]. split; [exact Heq|].
  now rewrite Hr.
Qed.

Lemma loc_row_missing {A : Type} (df : DataFrame A) (d : date) :
  ~ In d (index df) -> loc_row df d = Err KeyError.
Proof.
  intros Hd. unfold loc_row.
  destruct (List.find (fun r => (fst r =? d)%Z) (rows df)) as [r|] eqn:Hf; [|reflexivity].
  exfalso. apply Hd. apply find_some in Hf. destruct Hf as [Hin Heq].
  apply Z.eqb_eq in Heq. rewrite <- Heq. now apply in_map.
Qed.

Lemma last_In {A : Type} (l : list A) (x : A) : last l = Some x -> In x l.
Proof.
  intros H. apply last_Some in H. destruct H as [l' ->]. apply in_or_app. right. now left.
Qed.

(** X11. [latest_signal_table] raises [IndexError] exactly on a price table
    without rows and [KeyError] exactly when the last date of the price
    table is not a date of the signal table; it raises nothing else. *)
Theorem latest_signal_table_raises close signals :
  (latest_signal_table close signals = Err IndexError <-> rows close = []) /\
  (latest_signal_table close signals = Err KeyError <->
   exists r, last (rows close) = Some r /\ ~ In (fst r) (index signals)) /\
  (forall e, latest_signal_table close signals = Err e -> e = IndexError \/ e = KeyError).
Proof.
  unfold latest_signal_table, iloc_last.
  destruct (last (rows close)) as [r|] eqn:Hlast.
  - cbn [rbind].
    assert (Hne : rows close <> []).
    { intros Hnil. rewrite Hnil in Hlast. discriminate. }
    destruct (loc_row_found close (fst r)) as (r1 & _ & _ & ->).
    { apply in_map. now apply last_In. }
    cbn [rbind].
    destruct (in_dec Z.eq_dec (fst r) (index signals)) as [Hin|Hnot].
    + destruct (loc_row_found signals (fst r) Hin) as (r2 & _ & _ & ->). cbn [rbind].
      split; [split; [discriminate | contradiction]|].
      split; [|intros e; discriminate].
      split; [discriminate|]. intros (r' & [= <-] & Hnot). contradiction.
    + rewrite (loc_row_missing signals (fst r) Hnot). cbn [rbind].
      split; [split; [discriminate | contradiction]|].
      split; [|intros e [= <-]; now right].
      split; [|reflexivity]. intros _. now exists r.
  - apply last_None in Hlast. cbn [rbind].
    split; [tauto|]. split; [|intros e [= <-]; now left].
    split; [discriminate|]. intros (r & Hr & _). discriminate.
Qed.

(** X12. On tables with unique dates and the same uniquely labelled
    columns, the table of the latest signals has one row per ticker, in
    strictly increasing order of the tickers, and the row of a ticker holds
    its price and its signal of the last date of the price table. *)
Theorem latest_signal_table_rows close signals d cells sigcells :
  last (rows close) = Some (d, cells) ->
  In (d, sigcells) (rows signals) ->
  NoDup (index close) -> NoDup (index signals) ->
  NoDup (columns close) -> columns signals = columns close ->
  length cells = length (columns close) ->
  length sigcells = length (columns close) ->
  exists table,
    latest_signal_table close signals = Ok table /\
    StronglySorted (fun a b => String.ltb a b = true) (map fst table) /\
    (forall t, In t (map fst table) <-> In t (columns close)) /\
    (forall j t, columns close !! j = Some t ->
       exists p b, cells !! j = Some p /\ sigcells !! j = Some b /\
                   In (t, (p, Some b)) table).
Proof.
  intros Hlast Hsig Hndc Hnds Hcols Hsc Hlen Hslen.
  assert (Hin : In (d, cells) (rows close)).
  { apply last_Some in Hlast. destruct Hlast as [l' ->]. apply in_or_app. right. now left. }
  unfold latest_signal_table, iloc_last, loc_row. rewrite Hlast. cbn [rbind fst].
  rewrite (find_date_unique _ _ _ Hndc Hin), (find_date_unique _ _ _ Hnds Hsig).
  cbn [rbind snd]. rewrite Hsc. unfold row_series.
  set (pr := combine (columns close) cells).
  set (tr := combine (columns close) sigcells).
  assert (Hpl : map fst pr = columns close).
  { unfold pr. change (map fst ?l) with (fst <$> l). apply fst_zip. lia. }
  assert (Htl : map fst tr = columns close).
  { unfold tr. change (map fst ?l) with (fst <$> l). apply fst_zip. lia. }
  rewrite Hpl, Htl.
  destruct (sorted_labels_spec (columns close) (columns close)) as [Hsorted Hmem].
  eexists. split; [reflexivity|].
  rewrite map_map. cbn [fst]. rewrite map_id.
  split; [exact Hsorted|]. split; [intros t; rewrite Hmem; tauto|].
  intros j t Hj.
  destruct (lookup_lt_is_Some_2 cells j) as [p Hp].
  { rewrite Hlen. now apply lookup_lt_Some in Hj. }
  destruct (lookup_lt_is_Some_2 sigcells j) as [b Hb].
  { rewrite Hslen. now apply lookup_lt_Some in Hj. }
  exists p, b. split; [exact Hp|]. split; [exact Hb|].
  apply in_map_iff. exists t. split.
  - unfold cell_of, pr, tr.
    rewrite (series_get_combine _ _ _ _ _ Hcols Hj Hp),
            (series_get_combine _ _ _ _ _ Hcols Hj Hb).
    now destruct p.
  - apply Hmem. left. apply list_elem_of_In. now apply (list_elem_of_lookup_2 _ j).
Qed.

(** * A run without signals *)







(** * [max_drawdown] as the largest decline from a peak *)

Lemma cummax_from_lookup (m : Q) (l : list Q) (j : nat) (M : Q) :
  cummax_from m l !! j = Some M ->
  m <= M /\
  (forall i v, (i <= j)%nat -> l !! i = Some v -> v <= M) /\
  (M == m \/ exists i v, (i <= j)%nat /\ l !! i = Some v /\ M == v).
Proof.
  revert m j. induction l as [|x r IH]; intros m j H; [discriminate|].
  cbn [cummax_from] in H.
  pose proof (Q.le_max_l m x) as Hl. pose proof (Q.le_max_r m x) as Hr.
  destruct j as [|j]; simpl in H.
  - injection H as <-. split; [exact Hl|]. split.
    + intros [|i] v Hi Hv; [|lia]. simpl in Hv. injection Hv as <-. exact Hr.
    + destruct (Q.max_spec m x) as [[_ Hmax]|[_ Hmax]].
      * right. exists 0%nat, x. split; [lia|]. split; [reflexivity | exact Hmax].
      * now left.
  - destruct (IH _ _ H) as (Hm & Hall & Hex). split; [lra|]. split.
    + intros [|i] v Hi Hv; simpl in Hv.
      * injection Hv as <-. lra.
      * apply (Hall i); [lia | exact Hv].
    + destruct Hex as [Hex|(i & v & Hi & Hv & Hex)].
      * destruct (Q.max_spec m x) as [[_ Hmax]|[_ Hmax]].
        -- right. exists 0%nat, x. split; [lia|]. split; [reflexivity|].
           now rewrite Hex.
        -- left. now rewrite Hex.
      * right. exists (S i), v. split; [lia|]. now split.
Qed.

(** The running maximum at [j] is above every value up to [j] and is one of
    them. *)
Lemma cummax_lookup (l : list Q) (j : nat) (M : Q) :
  cummax l !! j = Some M ->
  (forall i v, (i <= j)%nat -> l !! i = Some v -> v <= M) /\
  (exists i v, (i <= j)%nat /\ l !! i = Some v /\ M == v).
Proof.
  destruct l as [|x r]; [discriminate|]. cbn [cummax]. destruct j as [|j]; simpl.
  - intros [= <-]. split.
    + intros [|i] v Hi Hv; [|lia]. simpl in Hv. injection Hv as <-. lra.
    + exists 0%nat, x. split; [lia|]. now split.
  - intros H. destruct (cummax_from_lookup _ _ _ _ H) as (Hm & Hall & Hex). split.
    + intros [|i] v Hi Hv; simpl in Hv.
      * now injection Hv as <-.
      * apply (Hall i); [lia | exact Hv].
    + destruct Hex as [Hex|(i & v & Hi & Hv & Hex)].
      * exists 0%nat, x. split; [lia|]. now split.
      * exists (S i), v. split; [lia|]. now split.
Qed.

Lemma cummax_from_length (m : Q) (l : list Q) : length (cummax_from m l) = length l.
Proof. revert m. induction l as [|x r IH]; intros m; simpl; [reflexivity | now rewrite IH]. Qed.

Lemma cummax_length (l : list Q) : length (cummax l) = length l.
Proof. destruct l; simpl; [reflexivity | now rewrite cummax_from_length]. Qed.

(** The minimum of finite entries is below each of them and is the start
    value or one of them. *)
Lemma series_min_finite (qs : list Q) (a : Q) :
  exists d,
    fold_left xmin2 (map Finite qs) (Finite a) = Finite d /\
    d <= a /\ (forall q, In q qs -> d <= q) /\ (d = a \/ In d qs).
Proof.
  revert a. induction qs as [|q qs IH]; intros a; cbn [map fold_left].
  - exists a. split; [reflexivity|]. split; [lra|]. split; [contradiction | now left].
  - cbn [xmin2 xleb]. destruct (Qle_bool a q) eqn:Hle.
    + apply Qle_bool_iff in Hle. destruct (IH a) as (d & Hd & Hda & Hall & Hin).
      exists d. split; [exact Hd|]. split; [exact Hda|]. split.
      * intros q' [<-|Hq']; [lra | now apply Hall].
      * destruct Hin; [now left | right; now right].
    + assert (Hlt : q < a).
      { apply Qnot_le_lt. intros H. apply Qle_bool_iff in H. congruence. }
      destruct (IH q) as (d & Hd & Hdq & Hall & Hin).
      exists d. split; [exact Hd|]. split; [lra|]. split.
      * intros q' [<-|Hq']; [lra | now apply Hall].
      * right. destruct Hin as [->|Hin]; [now left | now right].
Qed.

Lemma xdiv_finite (e m : Q) : 0 < m -> xdiv e m = Finite (e / m).
Proof.
  intros Hm. unfold xdiv. destruct (Qeq_bool m 0) eqn:E; [|reflexivity].
  apply Qeq_bool_iff in E. lra.
Qed.

Lemma decline_le_from_peak (v w M : Q) : 0 < v -> 0 < w -> w <= M -> v / M <= v / w.
Proof.
  intros Hv Hw HM. apply Qle_shift_div_r; [lra|].
  assert (Ht : 0 < v / w) by (apply Qlt_shift_div_l; lra).
  assert (Hvw : v / w * w == v) by (field; lra).
  assert (Hmono : v / w * w <= v / w * M) by (apply Qmult_le_l; [exact Ht | exact HM]).
  lra.
Qed.

(** X14. On a curve of positive values [max_drawdown] is the largest
    relative decline from an earlier value: it is below
    [value j / value i - 1] for every position [i] and every later or equal
    position [j], and it is that expression for one such pair. *)
Theorem max_drawdown_is_largest_decline (curve : list (date * Q)) :
  curve <> [] ->
  (forall p, In p curve -> 0 < snd p) ->
  exists d,
    max_drawdown curve = Finite d /\
    (forall i j pi pj, (i <= j)%nat ->
       curve !! i = Some pi -> curve !! j = Some pj -> d <= snd pj / snd pi - 1) /\
    (exists i j pi pj,
       (i <= j)%nat /\ curve !! i = Some pi /\ curve !! j = Some pj /\
       d == snd pj / snd pi - 1).
Proof.
  intros Hne Hpos. unfold max_drawdown.
  set (vals := map snd curve).
  assert (Hvals : forall i v, vals !! i = Some v ->
            exists p, curve !! i = Some p /\ snd p = v).
  { intros i v Hi. unfold vals in Hi. change (map ?f ?l) with (f <$> l) in Hi.
    rewrite list_lookup_fmap in Hi. destruct (curve !! i) as [p|]; [|discriminate].
    injection Hi as <-. now exists p. }
  assert (Hvpos : forall i v, vals !! i = Some v -> 0 < v).
  { intros i v Hi. destruct (Hvals _ _ Hi) as (p & Hp & <-).
    apply Hpos. now apply list_elem_of_In, (list_elem_of_lookup_2 _ i). }
  set (qs := zip_with (fun e m => e / m - 1) vals (cummax vals)).
  assert (Hdd : zip_with (fun e m => xsub (xdiv e m) 1) vals (cummax vals) = map Finite qs).
  { apply list_eq. intros j. unfold qs. change (map ?f ?l) with (f <$> l).
    rewrite list_lookup_fmap, !lookup_zip_with.
    destruct (vals !! j) as [v|] eqn:Hv; [|reflexivity]. cbn [mbind option_bind].
    destruct (cummax vals !! j) as [M|] eqn:HM; [|reflexivity].
    cbn [mbind option_bind fmap option_fmap option_map].
    destruct (cummax_lookup _ _ _ HM) as [Hall _].
    pose proof (Hall j v (Nat.le_refl j) Hv). pose proof (Hvpos _ _ Hv).
    rewrite xdiv_finite by lra. reflexivity. }
  assert (Hq : forall j q, qs !! j = Some q ->
            exists v M, vals !! j = Some v /\ cummax vals !! j = Some M /\ q = v / M - 1).
  { intros j q Hj. unfold qs in Hj. rewrite lookup_zip_with in Hj.
    destruct (vals !! j) as [v|]; [|discriminate]. cbn [mbind option_bind] in Hj.
    destruct (cummax vals !! j) as [M|]; [|discriminate].
    cbn [mbind option_bind] in Hj. injection Hj as <-. now exists v, M. }
  rewrite Hdd.
  destruct qs as [|q0 qs'] eqn:Hqs.
  { exfalso. apply (f_equal length) in Hqs. unfold qs in Hqs.
    rewrite length_zip_with, cummax_length in Hqs. unfold vals in Hqs.
    rewrite length_map in Hqs. destruct curve; [congruence | simpl in Hqs; lia]. }
  cbn [map]. unfold series_min. cbn [fold_left xmin2].
  destruct (series_min_finite qs' q0) as (d & Hd & Hd0 & Hall & Hin).
  exists d. split; [exact Hd|].
  assert (Hle : forall q, In q (q0 :: qs') -> d <= q).
  { intros q [<-|Hq']; [exact Hd0 | now apply Hall]. }
  assert (Hmem : In d (q0 :: qs')).
  { destruct Hin as [->|Hin]; [now left | now right]. }
  split.
  - intros i j pi pj Hij Hi Hj.
    assert (Hvi : vals !! i = Some (snd pi)).
    { unfold vals. change (map ?f ?l) with (f <$> l). now rewrite list_lookup_fmap, Hi. }
    assert (Hvj : vals !! j = Some (snd pj)).
    { unfold vals. change (map ?f ?l) with (f <$> l). now rewrite list_lookup_fmap, Hj. }
    destruct (lookup_lt_is_Some_2 (q0 :: qs') j) as [q Hqj].
    { rewrite <- Hqs. unfold qs. rewrite length_zip_with, cummax_length.
      apply lookup_lt_Some in Hvj. lia. }
    destruct (Hq _ _ Hqj) as (v & M & Hv & HM & ->).
    rewrite Hvj in Hv. injection Hv as <-.
    destruct (cummax_lookup _ _ _ HM) as [Hup _].
    pose proof (Hup i _ Hij Hvi) as HiM.
    pose proof (Hle _ (proj1 (list_elem_of_In _ _) (list_elem_of_lookup_2 _ _ _ Hqj))) as Hdq.
    pose proof (decline_le_from_peak (snd pj) (snd pi) M
                  (Hvpos _ _ Hvj) (Hvpos _ _ Hvi) HiM).
    lra.
  - apply list_elem_of_In, list_elem_of_lookup in Hmem. destruct Hmem as [j Hj].
    destruct (Hq _ _ Hj) as (v & M & Hv & HM & Hdv).
    destruct (cummax_lookup _ _ _ HM) as [_ (i & w & Hij & Hw & HMw)].
    destruct (Hvals _ _ Hw) as (pi & Hpi & Hsi).
    destruct (Hvals _ _ Hv) as (pj & Hpj & Hsj).
    exists i, j, pi, pj. split; [exact Hij|]. split; [exact Hpi|]. split; [exact Hpj|].
    rewrite Hdv, Hsi, Hsj, HMw. reflexivity.
Qed.

(** * More on the market filter *)

Lemma series_loc_has_date market_signal day m :
  series_loc market_signal day = Ok m -> has_date market_signal day = true.
Proof.
  unfold has_date. induction market_signal as [|[d b] s IH]; simpl; [discriminate|].
  destruct (d =? day)%Z; simpl; [reflexivity | exact IH].
Qed.

Lemma list_filter_all {A : Type} (f : A -> bool) (l : list A) :
  (forall x, In x l -> f x = true) -> List.filter f l = l.
Proof.
  induction l as [|x l IH]; intros H; simpl; [reflexivity|].
  rewrite (H x) by now left. f_equal. apply IH. intros y Hy. apply H. now right.
Qed.

(** Masked rows are left as they are by a second masking. *)
Lemma mask_rows_idempotent market_signal rs out :
  mask_rows market_signal rs = Ok out ->
  mask_rows market_signal out = Ok out /\
  forall r, In r out -> has_date market_signal (fst r) = true.
Proof.
  revert out. induction rs as [|[day cells] rest IH]; intros out H; simpl in H.
  - injection H as <-. split; [reflexivity | contradiction].
  - inv_bind H. inv_bind H. injection H as <-.
    destruct (IH _ Ha0) as [Hm Hd]. split.
    + cbn [mask_rows]. rewrite Ha, Hm. cbn [rbind]. do 2 f_equal. f_equal.
      destruct a; cbn [negb]; [reflexivity|]. now rewrite map_map.
    + intros r [<-|Hr]; [|now apply Hd]. cbn [fst]. now apply (series_loc_has_date _ _ a).
Qed.

(** X15. The market filter is idempotent: filtering a table it returned
    returns that table. *)
Theorem apply_market_filter_idempotent market_signal stock_signals out :
  apply_market_filter market_signal stock_signals = Ok out ->
  apply_market_filter market_signal out = Ok out.
Proof.
  unfold apply_market_filter. cbn [USE_MARKET_FILTER negb]. intros H. inv_bind H.
  injection H as <-. cbn [rows columns].
  destruct (mask_rows_idempotent _ _ _ Ha) as [Hm Hd].
  rewrite (list_filter_all _ a) by (intros r Hr; now apply Hd).
  now rewrite Hm.
Qed.

(** The entry [series_loc] returns is the first one of that date. *)
Lemma series_loc_first market_signal day m :
  series_loc market_signal day = Ok m ->
  exists k, market_signal !! k = Some (day, m) /\
            forall k' e, (k' < k)%nat -> market_signal !! k' = Some e -> fst e <> day.
Proof.
  induction market_signal as [|[d b] s IH]; simpl; [discriminate|].
  destruct (Z.eqb_spec d day) as [->|Hne].
  - intros [= ->]. exists 0%nat. split; [reflexivity|]. intros k' e Hk. lia.
  - intros H. destruct (IH H) as (k & Hk & Hfirst). exists (S k). split; [exact Hk|].
    intros [|k'] e Hlt He; simpl in He.
    + injection He as <-. exact Hne.
    + apply (Hfirst k'); [lia | exact He].
Qed.

(** X16. With the market filter, no stock signal is on while the proxy
    warms up: on a date that is among the first 219 dates of the proxy's
    price table, every cell of the filtered signal table is false. *)
Theorem market_warmup_blocks_signals market_data stock_signals market_close out :
  download_close_prices market_data = Ok market_close ->
  apply_market_filter_download market_data stock_signals = Ok out ->
  forall day cells b,
    In (day, cells) (rows out) ->
    In day (take 219 (index market_close)) ->
    In b cells -> b = false.
Proof.
  intros Hdl H day cells b Hrow Hday Hb.
  unfold apply_market_filter_download in H. cbn [USE_MARKET_FILTER negb] in H.
  rewrite Hdl in H. cbn [rbind] in H. inv_bind H.
  set (ms := map (fun r => (fst r, nth 0 (snd r) false)) (rows (build_signals market_close))).
  assert (a = ms) as ->.
  { unfold iloc_column0 in Ha. destruct (columns (build_signals market_close));
      [discriminate | now injection Ha as <-]. }
  clear Ha.
  unfold apply_market_filter in H. cbn [USE_MARKET_FILTER negb] in H.
  set (aligned := List.filter _ (rows stock_signals)) in H.
  destruct (mask_rows_spec ms aligned) as (out' & Hout' & Hall).
  { apply Forall_forall. intros r Hr. apply list_elem_of_In, filter_In in Hr. tauto. }
  rewrite Hout' in H. cbn [rbind] in H. injection H as <-. cbn [rows] in Hrow.
  apply list_elem_of_In, list_elem_of_lookup in Hrow. destruct Hrow as [n Hn].
  destruct (Forall2_lookup_r _ _ _ _ _ Hall Hn) as (r0 & _ & Hfst & m & Hm & Hsnd).
  cbn [fst snd] in Hfst, Hsnd. rewrite <- Hfst in Hm.
  assert (Hoff : m = false).
  { destruct (series_loc_first _ _ _ Hm) as (k & Hk & Hfirst).
    apply list_elem_of_In, elem_of_take in Hday. destruct Hday as (i & Hi & Hi219).
    assert (Hms : exists e, ms !! i = Some e /\ fst e = day).
    { unfold index in Hi. change (map ?f ?l) with (f <$> l) in Hi.
      rewrite list_lookup_fmap in Hi.
      destruct (rows market_close !! i) as [[d0 c]|] eqn:Hr; [|discriminate].
      injection Hi as Hi. cbn [fst] in Hi. subst d0.
      unfold ms, build_signals. cbn [rows]. change (map ?f ?l) with (f <$> l).
      rewrite list_lookup_fmap, list_lookup_imap, Hr. cbn. eauto. }
    destruct Hms as (e & He & Hed).
    assert (Hki : (k <= i)%nat).
    { destruct (Nat.le_gt_cases k i) as [Hle|Hgt]; [exact Hle|].
      exfalso. now apply (Hfirst i e Hgt He). }
    unfold ms in Hk. change (map ?f ?l) with (f <$> l) in Hk.
    rewrite list_lookup_fmap in Hk.
    destruct (rows (build_signals market_close) !! k) as [[dk ck]|] eqn:Hrk; [|discriminate].
    cbn in Hk. injection Hk as _ <-.
    destruct ck as [|b0 ck]; [reflexivity|]. cbn [nth].
    apply (build_signals_warmup market_close k dk (b0 :: ck) 0%nat b0 Hrk eq_refl). lia. }
  rewrite Hoff in Hsnd. rewrite Hsnd in Hb. apply in_map_iff in Hb.
  destruct Hb as (x & <- & _). reflexivity.
Qed.

(** * The backtest window on increasing dates *)

Lemma StronglySorted_lt_head (d : Z) (l : list Z) (x : Z) :
  StronglySorted Z.lt (d :: l) -> In x l -> (d < x)%Z.
Proof.
  intros H Hx. apply StronglySorted_inv in H. destruct H as [_ Hall].
  rewrite Forall_forall in Hall. now apply Hall, list_elem_of_In.
Qed.

(** X17. On strictly increasing dates the backtest window is a trailing
    block of the price table: it drops a number of leading rows, all dated
    before the start of the window, and keeps every row after them, each
    dated at or after that start. *)
Theorem backtest_window_is_suffix close years :
  StronglySorted Z.lt (index close) ->
  let start_date := sub_years (index_max (index close)) years in
  exists k,
    rows (backtest_window close years) = drop k (rows close) /\
    (forall r, In r (take k (rows close)) -> (fst r < start_date)%Z) /\
    (forall r, In r (drop k (rows close)) -> (start_date <= fst r)%Z).
Proof.
  intros Hsorted start_date. unfold backtest_window. cbn [rows]. fold start_date.
  unfold index in Hsorted. clearbody start_date.
  induction (rows close) as [|r rs IH]; [exists 0%nat; simpl; tauto|].
  cbn [List.filter map] in *.
  match goal with |- context [if ?c then _ else _] => destruct c eqn:E end;
    [apply Z.leb_le in E; rename E into Hle | apply Z.leb_gt in E; rename E into Hlt].
  - exists 0%nat. cbn [drop take].
    assert (Hall : forall x, In x rs -> (start_date <= fst x)%Z).
    { intros x Hx.
      pose proof (StronglySorted_lt_head _ _ (fst x) Hsorted (in_map fst _ _ Hx)) as Hx'.
      apply Z.lt_le_incl in Hx'. exact (Z.le_trans _ _ _ Hle Hx'). }
    split; [|split; [contradiction|]].
    + f_equal. apply list_filter_all. intros x Hx. apply Z.leb_le. now apply Hall.
    + intros x [<-|Hx]; [exact Hle | now apply Hall].
  - destruct IH as (k & Hk & Hbefore & Hafter).
    { now apply StronglySorted_inv in Hsorted. }
    exists (S k). cbn [drop take]. split; [exact Hk|]. split; [|exact Hafter].
    intros x [<-|Hx]; [exact Hlt | now apply Hbefore].
Qed.

(** * The further properties on the example tables *)


Lemma ex_close_forward_filled : forward_filled (ex_close 252).
Proof.
  assert (H : ex_close 252 =
              ffill (mkFrame (columns (ex_close 252)) (rows (ex_close 252)))).
  { vm_compute. reflexivity. }
  rewrite H. apply ffill_forward_filled.
  apply (bool_decide_unpack _). vm_compute. exact I.
Defined.

Lemma ex_data_full : full_rows ex_data.
Proof.
  intros r Hr. simpl in Hr.
  destruct Hr as [<-|[<-|[<-|[<-|[]]]]]; reflexivity.
Defined.

(** On day 41 of the example run the second ticker is held, and its signal
    is on. *)
Lemma held_positions_have_signal_witness :
  exists res curve sig sigcells st2,
    run_backtest_curve (ex_close 252) (ex_signals 252) 200 5 = Ok (res, curve) /\
    rows ex_px !! 40%nat = Some (19763%Z, [Some 140; Some 50]) /\
    loc (ex_signals 252) (index ex_px) = Ok sig /\
    rows sig !! 40%nat = Some (19763%Z, sigcells) /\
    portfolio_after 41 ex_px sig 200 ex_cdays = Ok st2 /\
    0 < shares st2 !!! "MSFT"%string /\
    series_get (row_series (columns sig) sigcells) "MSFT"%string = Ok true.
Proof.
  destruct (run_backtest_curve (ex_close 252) (ex_signals 252) 200 5)
    as [[res curve]|e] eqn:E; [|vm_compute in E; discriminate].
  destruct (held_positions_have_signal _ _ _ _ res curve E 40%nat 19763%Z
              [Some 140; Some 50])
    as (sig & sigcells & st2 & Hloc & Hsig & H2 & Hheld); [vm_compute; reflexivity|].
  pose proof Hloc as Hloc'. unfold loc in Hloc'. vm_compute in Hloc'.
  injection Hloc' as <-.
  assert (Hpos : 0 < shares st2 !!! "MSFT"%string).
  { pose proof H2 as H2'. vm_compute in H2'. injection H2' as <-. reflexivity. }
  eexists res, curve, _, sigcells, st2.
  split; [reflexivity|]. split; [vm_compute; reflexivity|]. split; [exact Hloc|].
  split; [exact Hsig|]. split; [exact H2|]. split; [exact Hpos|].
  apply (Hheld "MSFT"%string 50); [right; now left | exact Hpos].
Defined.

(** Day 41 of the example run is no contribution day: the count of the
    second ticker is unchanged or sold. *)
Lemma no_purchase_between_contributions_witness :
  exists res curve sig st0 st2,
    run_backtest_curve (ex_close 252) (ex_signals 252) 200 5 = Ok (res, curve) /\
    rows ex_px !! 40%nat = Some (19763%Z, [Some 140; Some 50]) /\
    is_contribution_day 19763%Z ex_cdays = false /\
    loc (ex_signals 252) (index ex_px) = Ok sig /\
    portfolio_after 40 ex_px sig 200 ex_cdays = Ok st0 /\
    portfolio_after 41 ex_px sig 200 ex_cdays = Ok st2 /\
    (shares st2 !!! "MSFT"%string = shares st0 !!! "MSFT"%string \/
     (0 < shares st0 !!! "MSFT"%string /\ shares st2 !!! "MSFT"%string = 0)).
Proof.
  destruct (run_backtest_curve (ex_close 252) (ex_signals 252) 200 5)
    as [[res curve]|e] eqn:E; [|vm_compute in E; discriminate].
  destruct (no_purchase_between_contributions _ _ _ _ res curve E 40%nat 19763%Z
              [Some 140; Some 50])
    as (sig & sigcells & st0 & st2 & Hloc & _ & H0 & H2 & Hshares & _);
    [vm_compute; reflexivity | vm_compute; reflexivity |].
  exists res, curve, sig, st0, st2.
  split; [reflexivity|]. split; [vm_compute; reflexivity|].
  split; [vm_compute; reflexivity|]. split; [exact Hloc|].
  split; [exact H0|]. split; [exact H2|]. apply Hshares.
Defined.

(** The example run, with its contribution of 200 and its positive prices,
    stays long-only. *)
Lemma portfolio_stays_long_only_witness :
  exists res curve sig st,
    run_backtest_curve (ex_close 252) (ex_signals 252) 200 5 = Ok (res, curve) /\
    0 <= 200 /\
    loc (ex_signals 252) (index ex_px) = Ok sig /\
    portfolio_after 41 ex_px sig 200 ex_cdays = Ok st /\
    0 <= cash st /\ 0 <= shares st !!! "AAPL"%string.
Proof.
  destruct (run_backtest_curve (ex_close 252) (ex_signals 252) 200 5)
    as [[res curve]|e] eqn:E; [|vm_compute in E; discriminate].
  assert (Hc : 0 <= 200) by (vm_compute; discriminate).
  destruct (portfolio_stays_long_only _ _ _ _ res curve E Hc ex_close_prices)
    as (sig & Hloc & Hall).
  destruct (Hall 41%nat) as (st & Hst & Hcash & Hshares).
  exists res, curve, sig, st.
  split; [reflexivity|]. split; [exact Hc|]. split; [exact Hloc|].
  split; [exact Hst|]. split; [exact Hcash | apply Hshares].
Defined.


(** The example download: the table returned is forward-filled. *)
Lemma download_close_prices_forward_filled_witness :
  full_rows ex_data /\
  exists close,
    download_close_prices ex_data = Ok close /\
    index close = [19723; 19725; 19726]%Z /\
    forward_filled close.
Proof.
  split; [exact ex_data_full|].
  destruct (download_close_prices_forward_filled ex_data ex_data_full)
    as [[He _]|(_ & close & Hdl & _ & Hidx & _ & _ & Hff)]; [vm_compute in He; discriminate|].
  exists close. split; [exact Hdl|]. split; [exact Hidx | exact Hff].
Defined.

(** The example download: the price of the second ticker on the third day
    is kept. *)
Lemma download_close_prices_latest_quote_witness :
  full_rows ex_data /\
  exists close cur,
    download_close_prices ex_data = Ok close /\
    rows close !! 1%nat = Some (19725%Z, cur) /\
    cur !! 1%nat = Some (Some 20).
Proof.
  split; [exact ex_data_full|].
  destruct (download_close_prices ex_data) as [close|e] eqn:E;
    [|vm_compute in E; discriminate].
  destruct (download_close_prices_latest_quote ex_data close ex_data_full E) as [Hkeep _].
  destruct (Hkeep 1%nat 19725%Z [None; Some 20] 1%nat 20) as (cur & Hrow & Hcell);
    [reflexivity | reflexivity |].
  exists close, cur. split; [reflexivity|]. split; [exact Hrow | exact Hcell].
Defined.

(** On day 41 of the example run the second ticker is held, and it has a
    price that day. *)
Lemma held_positions_are_priced_witness :
  exists res curve sig st p,
    run_backtest_curve (ex_close 252) (ex_signals 252) 200 5 = Ok (res, curve) /\
    forward_filled (ex_close 252) /\
    rows ex_px !! 40%nat = Some (19763%Z, [Some 140; Some 50]) /\
    loc (ex_signals 252) (index ex_px) = Ok sig /\
    portfolio_after 41 ex_px sig 200 ex_cdays = Ok st /\
    0 < shares st !!! "MSFT"%string /\
    In ("MSFT"%string, p) (dropna (row_series (columns ex_px) [Some 140; Some 50])).
Proof.
  destruct (run_backtest_curve (ex_close 252) (ex_signals 252) 200 5)
    as [[res curve]|e] eqn:E; [|vm_compute in E; discriminate].
  destruct (held_positions_are_priced _ _ _ _ res curve E ex_close_forward_filled)
    as (sig & Hloc & Hpriced).
  pose proof Hloc as Hloc'. unfold loc in Hloc'. vm_compute in Hloc'.
  injection Hloc' as <-.
  match type of Hloc with loc _ _ = Ok ?s => set (sig := s) in * end.
  destruct (portfolio_after 41 ex_px sig 200 ex_cdays) as [st|e] eqn:Hst;
    [|vm_compute in Hst; discriminate].
  assert (Hpos : 0 < shares st !!! "MSFT"%string).
  { pose proof Hst as Hst'. vm_compute in Hst'. injection Hst' as <-. reflexivity. }
  destruct (Hpriced 40%nat 19763%Z [Some 140; Some 50] st) with (t := "MSFT"%string)
    as [p Hp]; [vm_compute; reflexivity | exact Hst | exact Hpos |].
  exists res, curve, sig, st, p.
  split; [reflexivity|]. split; [exact ex_close_forward_filled|].
  split; [vm_compute; reflexivity|]. split; [exact Hloc|].
  split; [exact Hst|]. split; [exact Hpos | exact Hp].
Defined.

(** The second ticker of the example table has no price on its first day:
    its signal of the eleventh day is false. *)
Lemma missing_price_silences_signal_witness :
  exists day cells b,
    rows (ex_close 30) !! 0%nat = Some (19723%Z, [Some 100; None]) /\
    rows (build_signals (ex_close 30)) !! 10%nat = Some (day, cells) /\
    cells !! 1%nat = Some b /\
    b = false.
Proof.
  destruct (rows (build_signals (ex_close 30)) !! 10%nat) as [[day cells]|] eqn:E;
    [|vm_compute in E; discriminate].
  destruct (cells !! 1%nat) as [b|] eqn:Eb.
  2:{ exfalso. pose proof E as E'. vm_compute in E'. injection E' as _ <-. discriminate. }
  exists day, cells, b.
  assert (H0 : rows (ex_close 30) !! 0%nat = Some (19723%Z, [Some 100; None])).
  { vm_compute. reflexivity. }
  split; [exact H0|]. split; [reflexivity|]. split; [exact Eb|].
  apply (missing_price_silences_signal (ex_close 30) 0%nat 19723%Z [Some 100; None] 1%nat
           H0 eq_refl 10%nat day cells b); [lia | exact E | exact Eb].
Defined.

(** The latest signals of twelve days of the example tables: the row of the
    second ticker holds its price and its signal of the last day. *)
Lemma latest_signal_table_rows_witness :
  exists table,
    last (rows (ex_close 12)) = Some (19734%Z, [Some 111; Some 50]) /\
    In (19734%Z, [true; true]) (rows (ex_signals 12)) /\
    NoDup (index (ex_close 12)) /\ NoDup (index (ex_signals 12)) /\
    NoDup (columns (ex_close 12)) /\
    latest_signal_table (ex_close 12) (ex_signals 12) = Ok table /\
    In ("MSFT"%string, (Some 50, Some true)) table.
Proof.
  assert (Hlast : last (rows (ex_close 12)) = Some (19734%Z, [Some 111; Some 50])).
  { vm_compute. reflexivity. }
  assert (Hsig : In (19734%Z, [true; true]) (rows (ex_signals 12))).
  { apply list_elem_of_In, (list_elem_of_lookup_2 _ 11%nat). vm_compute. reflexivity. }
  assert (Hndc : NoDup (index (ex_close 12))).
  { apply (bool_decide_unpack _). vm_compute. exact I. }
  assert (Hnds : NoDup (index (ex_signals 12))).
  { apply (bool_decide_unpack _). vm_compute. exact I. }
  assert (Hcols : NoDup (columns (ex_close 12))).
  { apply (bool_decide_unpack _). vm_compute. exact I. }
  destruct (latest_signal_table_rows (ex_close 12) (ex_signals 12) 19734%Z
              [Some 111; Some 50] [true; true] Hlast Hsig Hndc Hnds Hcols
              eq_refl eq_refl eq_refl)
    as (table & Htab & _ & _ & Hcells).
  destruct (Hcells 1%nat "MSFT"%string eq_refl) as (p & b & Hp & Hb & Hin).
  injection Hp as <-. injection Hb as <-.
  exists table. do 5 (split; [assumption|]). split; [exact Htab | exact Hin].
Defined.


(** The example curve: the drawdown is at least the fall from 120 to 90. *)
Lemma max_drawdown_is_largest_decline_witness :
  exists d,
    ex_curve <> [] /\
    max_drawdown ex_curve = Finite d /\
    d <= 90 / 120 - 1.
Proof.
  assert (Hne : ex_curve <> []) by discriminate.
  assert (Hpos : forall p, In p ex_curve -> 0 < snd p).
  { intros p Hp. simpl in Hp. destruct Hp as [<-|[<-|[<-|[<-|[]]]]]; reflexivity. }
  destruct (max_drawdown_is_largest_decline ex_curve Hne Hpos) as (d & Hd & Hle & _).
  exists d. split; [exact Hne|]. split; [exact Hd|].
  exact (Hle 2%nat 3%nat (19725%Z, 120) (19726%Z, 90) (le_S _ _ (le_n _)) eq_refl eq_refl).
Defined.

(** Eight days of example signals under the example proxy, filtered
    twice. *)
Lemma apply_market_filter_idempotent_witness :
  exists out,
    apply_market_filter ex_market (ex_signals 8) = Ok out /\
    apply_market_filter ex_market out = Ok out.
Proof.
  destruct (apply_market_filter ex_market (ex_signals 8)) as [out|e] eqn:E;
    [|vm_compute in E; discriminate].
  exists out. split; [reflexivity|].
  exact (apply_market_filter_idempotent ex_market (ex_signals 8) out E).
Defined.

(** Eight days of example signals filtered by a proxy of eight days: the
    signals of the third day are off. *)
Lemma market_warmup_blocks_signals_witness :
  exists market_close out cells,
    download_close_prices (ex_close 8) = Ok market_close /\
    apply_market_filter_download (ex_close 8) (ex_signals 8) = Ok out /\
    rows out !! 2%nat = Some (19725%Z, cells) /\
    In 19725%Z (take 219 (index market_close)) /\
    forall b, In b cells -> b = false.
Proof.
  destruct (download_close_prices (ex_close 8)) as [market_close|e] eqn:Hdl;
    [|vm_compute in Hdl; discriminate].
  destruct (apply_market_filter_download (ex_close 8) (ex_signals 8)) as [out|e] eqn:E;
    [|vm_compute in E; discriminate].
  destruct (rows out !! 2%nat) as [[day cells]|] eqn:Hrow.
  2:{ exfalso. pose proof E as E'. vm_compute in E'. injection E' as <-. discriminate. }
  assert (Hday : day = 19725%Z).
  { pose proof E as E'. vm_compute in E'. injection E' as <-.
    vm_compute in Hrow. now injection Hrow as <- _. }
  subst day.
  assert (Hin : In 19725%Z (take 219 (index market_close))).
  { pose proof Hdl as Hdl'. vm_compute in Hdl'. injection Hdl' as <-.
    vm_compute. right. right. now left. }
  exists market_close, out, cells. split; [reflexivity|]. split; [reflexivity|].
  split; [exact Hrow|]. split; [exact Hin|].
  intros b Hb.
  apply (market_warmup_blocks_signals (ex_close 8) (ex_signals 8) market_close out Hdl E
           19725%Z cells b); [|exact Hin | exact Hb].
  now apply list_elem_of_In, (list_elem_of_lookup_2 _ 2%nat).
Defined.

(** The window of zero years of the example table is a trailing block of
    its rows. *)
Lemma backtest_window_is_suffix_witness :
  exists k,
    StronglySorted Z.lt (index (ex_close 252)) /\
    rows (backtest_window (ex_close 252) 0) = drop k (rows (ex_close 252)).
Proof.
  destruct (backtest_window_is_suffix (ex_close 252) 0 ex_close_sorted) as (k & Hk & _).
  exists k. split; [exact ex_close_sorted | exact Hk].
Defined.


